(** * Tungsten template engine: the builder stack and the template facade

    A shallow embedding of two source files of the repository,

    - [test_stack.js]: [TemplateStack], the builder that accumulates the
      interpreted output on an open-element stack (module [Stack] below);
    - [src/template/template.js]: [Template] with the attachment pass
      [attachViews] and the string renderer [toString] (module [Template]);

    and the properties of them that the specification states. *)

From Stdlib Require Import ZArith.
From stdpp Require Import strings list pretty.

Set Warnings "-register-all".
Open Scope string_scope.
Open Scope list_scope.
Open Scope nat_scope.

(* ================================================================== *)
(** * Part I: [test_stack.js] *)
(* ================================================================== *)

Module Stack.

(** ** Values

    What the builder is handed and what it stores: strings, nodes (plain
    objects, their own properties in insertion order) and arrays of them.
    The builder owns what it stores, so values are trees. *)
Inductive value :=
| VUndef
| VNull
| VBool (b : bool)
| VNum (n : Z)
| VStr (s : string)
| VArr (xs : list value)
| VObj (props : list (string * value)).

(** [var templateKeys = {...}] *)
Module templateKeys.
Definition type := "type".
Definition value := "value".
Definition commentValue := "value".
Definition children := "children".
Definition tagName := "tagName".
Definition attributes := "attributes".
Definition dynamicAttributes := "dynamicAttributes".
End templateKeys.

(** [var types = {...}] *)
Module types.
Definition INTERPOLATOR := VNum 2.
Definition TRIPLE := VNum 3.
Definition SECTION := VNum 4.
Definition ELEMENT := VNum 7.
Definition PARTIAL := VNum 8.
Definition COMMENT := VNum 9.
Definition CLOSING_TAG := VNum 14.
Definition REFERENCE := VNum 30.
Definition SECTION_UNLESS := VNum 51.
End types.

(** Own-property lookup in an object literal. *)
Fixpoint assoc (k : string) (ps : list (string * value)) : option value :=
  match ps with
  | [] => None
  | (k', v) :: ps' => if String.eqb k k' then Some v else assoc k ps'
  end.

(** [o[k] = v]: an existing key keeps its place, a new key goes last. *)
Fixpoint assign (ps : list (string * value)) (k : string) (v : value)
  : list (string * value) :=
  match ps with
  | [] => [(k, v)]
  | (k', v') :: ps' =>
      if String.eqb k k' then (k', v) :: ps' else (k', v') :: assign ps' k v
  end.

(** [obj.k] for the property names the builder reads ([type], [children],
    [tagName], ...), on an [obj] that is neither [null] nor [undefined]
    (every caller has excluded these two, on which the access raises).
    Primitives and arrays have none of these properties. *)
Definition field (k : string) (obj : value) : value :=
  match obj with
  | VObj ps => default VUndef (assoc k ps)
  | _ => VUndef
  end.

(** JavaScript truthiness. *)
Definition truthy (v : value) : bool :=
  match v with
  | VUndef | VNull => false
  | VBool b => b
  | VNum n => negb (n =? 0)%Z
  | VStr s => negb (String.eqb s "")
  | VArr _ | VObj _ => true
  end.

(** [a === b].  Exact on primitives.  Two objects or arrays are equal when
    they are the same reference, which a value cannot tell; the builder
    compares addresses and tag names only, which are strings or
    [undefined], and on two reference values the model answers [false]. *)
Definition strict_eq (a b : value) : bool :=
  match a, b with
  | VUndef, VUndef | VNull, VNull => true
  | VBool x, VBool y => Bool.eqb x y
  | VNum x, VNum y => (x =? y)%Z
  | VStr x, VStr y => String.eqb x y
  | _, _ => false
  end.

(** String conversion of an array member, as [Array.prototype.join] does
    it: [null] and [undefined] give the empty string. *)
Fixpoint elem (v : value) : string :=
  match v with
  | VUndef | VNull => ""
  | VBool true => "true"
  | VBool false => "false"
  | VNum n => pretty n
  | VStr s => s
  | VArr xs =>
      (fix join (l : list value) : string :=
         match l with
         | [] => ""
         | [x] => elem x
         | x :: l' => elem x +:+ "," +:+ join l'
         end) xs
  | VObj _ => "[object Object]"
  end.

(** String conversion, as [+] applies it to an operand.  A number is
    printed with all its digits, which is what JavaScript prints for an
    integer below [1e21] in magnitude; beyond that JavaScript prints the
    exponent form, and an object with a [toString] or a [valueOf] of its
    own prints what those give: see [printable]. *)
Definition to_str (v : value) : string :=
  match v with
  | VUndef => "undefined"
  | VNull => "null"
  | _ => elem v
  end.

(** The values that [to_str] prints as JavaScript does: the numbers are
    safe integers (at most [2^53] in magnitude) and no object has a
    [toString] or a [valueOf] of its own, at any depth of an array. *)
Fixpoint printable (v : value) : bool :=
  match v with
  | VNum n => (Z.abs n <=? 2 ^ 53)%Z
  | VArr xs =>
      (fix go (l : list value) : bool :=
         match l with
         | [] => true
         | x :: l' => printable x && go l'
         end) xs
  | VObj ps =>
      match assoc "toString" ps, assoc "valueOf" ps with
      | None, None => true
      | _, _ => false
      end
  | _ => true
  end.

(** ** Open frames

    The objects [openElement] builds and keeps on [this.stack]: for
    [types.ELEMENT] the frame [{children, type, id, tagName, attributes,
    isOpen: true}], for every other type [{children, type, id, value}]. *)
Inductive frame :=
| Elem (id : string) (tagName : value) (attributes children : list value)
| Block (type : value) (id : string) (v : value) (children : list value).

Definition f_id (f : frame) : string :=
  match f with Elem id _ _ _ | Block _ id _ _ => id end.

Definition f_children (f : frame) : list value :=
  match f with Elem _ _ _ ch | Block _ _ _ ch => ch end.

Definition f_type (f : frame) : value :=
  match f with Elem _ _ _ _ => types.ELEMENT | Block ty _ _ _ => ty end.

(** [f.tagName]: only element frames have the key. *)
Definition f_tagName (f : frame) : value :=
  match f with Elem _ tag _ _ => tag | Block _ _ _ _ => VUndef end.

(** The frame as the object it is, keys in the order [openElement] sets
    them. *)
Definition frame_obj (f : frame) : value :=
  match f with
  | Elem id tag attrs ch =>
      VObj [("children", VArr ch); ("type", types.ELEMENT); ("id", VStr id);
            ("tagName", tag); ("attributes", VArr attrs);
            ("isOpen", VBool true)]
  | Block ty id v ch =>
      VObj [("children", VArr ch); ("type", ty); ("id", VStr id);
            ("value", v)]
  end.

(** ** The builder

    [stack] has the top of the stack (the last frame pushed) at its head;
    [result] and every children or attributes array grow at the end.
    [log] collects the messages given to [logger.warn]. *)
Record state := mkState {
  startID : string;
  result : list value;
  stack : list frame;
  log : list string
}.

(** [function TemplateStack()] *)
Definition TemplateStack : state := mkState "" [] [] [].

Definition set_stack (st : state) (s : list frame) : state :=
  mkState (startID st) (result st) s (log st).

Definition set_result (st : state) (r : list value) : state :=
  mkState (startID st) r (stack st) (log st).

Definition warn (st : state) (msg : string) : state :=
  mkState (startID st) (result st) (stack st) (log st ++ [msg]).

(** [TemplateStack.prototype.peek] *)
Definition peek (st : state) : option frame := head (stack st).

(** [TemplateStack.prototype.getID] *)
Definition getID (st : state) : string :=
  match peek st with
  | Some openElem => f_id openElem +:+ "." +:+ pretty (length (f_children openElem))
  | None => startID st +:+ pretty (length (result st))
  end.

(** [TemplateStack.prototype.openElement] *)
Definition openElement (st : state) (type v : value) : state * frame :=
  let elem :=
    if strict_eq type types.ELEMENT
    then Elem (getID st) v [] []
    else Block type (getID st) v [] in
  (set_stack st (elem :: stack st), elem).

(** [obj.children && obj.children.length > 0].  For [children] that is a
    plain object the test reads its property [length]: a number is
    compared, [undefined] and [null] compare as not greater, a boolean
    as [1] or [0].  [None]: the [length] is a string, an array or an
    object, whose conversion to a number the model does not follow. *)
Definition has_children (obj : value) : option bool :=
  match field "children" obj with
  | VArr xs => Some (negb (Nat.eqb (length xs) 0))
  | VStr s => Some (negb (Nat.eqb (String.length s) 0))
  | VObj cps =>
      match field "length" (VObj cps) with
      | VNum n => Some (0 <? n)%Z
      | VUndef | VNull => Some false
      | VBool b => Some b
      | _ => None
      end
  | _ => Some false
  end.

(** [TemplateStack.prototype.processObject].  [None] when the call gives
    no node: [obj.type] raises on [null] and [undefined]; a node whose
    [children] is a plain object with a [length] that is no number is
    outside the model ([has_children]). *)
Definition processObject (obj : value) : option value :=
  match obj with
  | VStr _ => Some obj
  | VUndef | VNull => None
  | _ =>
    let ty := field "type" obj in
    let processed := [] in
    if strict_eq ty types.ELEMENT then
      let processed := assign processed templateKeys.type types.ELEMENT in
      let processed := assign processed templateKeys.tagName (field "tagName" obj) in
      let processed := assign processed templateKeys.attributes (field "attributes" obj) in
      b ← has_children obj;
      Some (VObj (if b : bool
                  then assign processed templateKeys.children (field "children" obj)
                  else processed))
    else if strict_eq ty (VStr "comment") then
      let processed := assign processed templateKeys.type types.COMMENT in
      let processed := assign processed templateKeys.commentValue (field "text" obj) in
      Some (VObj processed)
    else if strict_eq ty types.INTERPOLATOR || strict_eq ty types.TRIPLE
            || strict_eq ty types.REFERENCE then
      let processed := assign processed templateKeys.type ty in
      let processed := assign processed templateKeys.value (field "value" obj) in
      Some (VObj processed)
    else if strict_eq ty types.PARTIAL || strict_eq ty types.SECTION
            || strict_eq ty types.SECTION_UNLESS then
      let processed := assign processed templateKeys.type ty in
      let processed := assign processed templateKeys.value (field "value" obj) in
      b ← has_children obj;
      Some (VObj (if b : bool
                  then assign processed templateKeys.children (field "children" obj)
                  else processed))
    else if strict_eq ty (VStr "attributename") || strict_eq ty (VStr "attributevalue")
            || strict_eq ty (VStr "attributeend") then
      Some obj
    else Some (VObj processed)
  end.

(** Lines 124-129 of [_closeElem]: the children of [obj] are processed in
    place.  [None] when [obj.children] raises ([obj] is [null] or
    [undefined]), when [processObject] gives no node for a child, and for
    [children] that is a plain object with a truthy [length], whose
    members the loop would read by index, which is outside the model.  A
    plain object without a [length] is skipped by the test, as in the
    code.  A string for [children] has a length, but a string cannot be
    written to and the stores are ignored. *)
Definition processChildren (obj : value) : option value :=
  match obj with
  | VUndef | VNull => None
  | VObj ps =>
      match field "children" obj with
      | VArr [] => Some obj
      | VArr xs =>
          xs' ← mapM processObject xs;
          Some (VObj (assign ps "children" (VArr xs')))
      | VObj cps =>
          if truthy (field "length" (VObj cps)) then None else Some obj
      | _ => Some obj
      end
  | _ => Some obj
  end.

(** Lines 144-149: combine adjacent strings, otherwise [push]. *)
Definition push (pushingTo : list value) (obj : value) : list value :=
  match obj, last pushingTo with
  | VStr s, Some (VStr t) => removelast pushingTo ++ [VStr (t +:+ s)]
  | _, _ => pushingTo ++ [obj]
  end.

(** The array of [top] that a resolved object goes to: [top.attributes]
    when [top.type === types.ELEMENT && top.isOpen], else [top.children]. *)
Definition push_into (top : frame) (obj : value) : frame :=
  match top with
  | Elem id tag attrs ch => Elem id tag (push attrs obj) ch
  | Block ty id v ch => Block ty id v (push ch obj)
  end.

(** [TemplateStack.prototype._closeElem] *)
Definition _closeElem (st : state) (obj : value) : option state :=
  obj ← processChildren obj;
  match stack st with
  | top :: rest => Some (set_stack st (push_into top obj :: rest))
  | [] =>
      obj ← processObject obj;
      Some (set_result st (push (result st) obj))
  end.

(** [TemplateStack.prototype.createObject] *)
Definition createObject (st : state) (obj : value) : option state :=
  let obj :=
    if truthy obj && strict_eq (field "type" obj) (VStr "Widget")
    then match obj with
         | VObj ps => VObj (assign ps "id" (VStr (getID st)))
         | _ => obj
         end
    else obj in
  _closeElem st obj.

(** [TemplateStack.prototype.createComment] *)
Definition createComment (st : state) (text : value) : option state :=
  _closeElem st (VObj [("type", VStr "comment"); ("text", text)]).

(** [TemplateStack.prototype.popElement] *)
Definition popElement (st : state) : state * option frame :=
  (set_stack st (tail (stack st)), head (stack st)).

(** What [closeElement] reads of its argument: [closingElem.id] and
    [closingElem.tagName]. *)
Record closing := mkClosing { c_id : value; c_tagName : value }.

(** A frame handed to [closeElement], as [getOutput] does. *)
Definition closing_of (f : frame) : closing :=
  mkClosing (VStr (f_id f)) (f_tagName f).

(** The [while] loop of [closeElement], lines 179-182.  [openElem] is the
    frame popped last; the loop hands back the builder and [openElem] as
    they are when it ends.  Each iteration pops one more frame, so the
    loop body runs at most once for [openElem] and once for every frame
    still on the stack; [fuel] counts the iterations left. *)
Fixpoint unwind (fuel : nat) (st : state) (openElem : option frame)
    (tagName : value) : option (state * option frame) :=
  match openElem with
  | Some f =>
      if negb (strict_eq (f_tagName f) tagName) then
        match fuel with
        | O => None
        | S fuel' =>
            st ← _closeElem st (frame_obj f);
            let '(st, openElem) := popElement st in
            unwind fuel' st openElem tagName
        end
      else Some (st, openElem)
  | None => Some (st, openElem)
  end.

(** The body of [closeElement]; [self] is [this.closeElement]. *)
Definition closeElement_body (self : state → closing → option state)
    (st : state) (closingElem : closing) : option state :=
  let id := c_id closingElem in
  let tagName := c_tagName closingElem in
  match peek st with
  | Some openElem =>
      let openID := f_id openElem in
      if negb (strict_eq (VStr openID) id) then
        let st := warn st (to_str tagName +:+ " tags improperly paired, closing "
                           +:+ openID +:+ " with close tag from " +:+ to_str id) in
        let '(st, openElem) := popElement st in
        r ← unwind (S (length (stack st))) st openElem tagName;
        Some r.1
      else
        let '(st, popped) := popElement st in
        match popped with
        | Some f => _closeElem st (frame_obj f)
        | None => None
        end
  | None =>
      if strict_eq tagName (VStr "p") then
        let '(st, elem) := openElement st (VStr "p") (VObj []) in
        self st (closing_of elem)
      else
        Some (warn st ("Closing element " +:+ to_str id
                       +:+ " when the stack was empty"))
  end.

(** [TemplateStack.prototype.closeElement].  The one recursive call is
    made with the frame just pushed on top of the stack, and so takes the
    first branch: two unfoldings of the body are the whole function
    ([closeElement_unfold] below). *)
Definition closeElement : state → closing → option state :=
  closeElement_body (closeElement_body (fun _ _ => None)).

(** [TemplateStack.prototype.processArrayOutput] *)
Definition processArrayOutput (output : list value) : value := VArr output.

(** The [while] loop of [getOutput]. *)
Fixpoint closeAll (fuel : nat) (st : state) : option state :=
  match peek st with
  | Some top =>
      match fuel with
      | O => None
      | S fuel' => st ← closeElement st (closing_of top); closeAll fuel' st
      end
  | None => Some st
  end.

(** [TemplateStack.prototype.getOutput] *)
Definition getOutput (st : state) : option (state * value) :=
  st ← closeAll (length (stack st)) st;
  Some (st, match result st with
            | [r] => r
            | rs => processArrayOutput rs
            end).

(** [TemplateStack.prototype.clear] *)
Definition clear (st : state) : state :=
  mkState (startID st) [] [] (log st).

(** ** Vocabulary of the properties *)

(** The builder's operations, as a caller issues them. *)
Inductive op :=
| OpenElement (type v : value)
| CreateObject (obj : value)
| CreateComment (text : value)
| CloseElement (closingElem : closing)
| PopElement
| GetOutput
| Clear.

Definition step (st : state) (o : op) : option state :=
  match o with
  | OpenElement type v => Some (fst (openElement st type v))
  | CreateObject obj => createObject st obj
  | CreateComment text => createComment st text
  | CloseElement c => closeElement st c
  | PopElement => Some (fst (popElement st))
  | GetOutput => fst <$> getOutput st
  | Clear => Some (clear st)
  end.

(** A sequence of operations; [None] when one of them raises. *)
Fixpoint run (st : state) (ops : list op) : option state :=
  match ops with
  | [] => Some st
  | o :: ops' => st ← step st o; run st ops'
  end.

Definition is_str (v : value) : bool :=
  match v with VStr _ => true | _ => false end.







(** The frames strictly below the first frame, from the top, whose tag
    name is [tagName]; none when no frame has it. *)
Fixpoint below_match (tagName : value) (s : list frame) : list frame :=
  match s with
  | [] => []
  | f :: s' =>
      if strict_eq (f_tagName f) tagName then s' else below_match tagName s'
  end.

(** A value that [===] compares by what it is: not an object or an
    array, which are compared as references ([strict_eq]). *)
Definition primitive (v : value) : bool :=
  match v with
  | VArr _ | VObj _ => false
  | _ => true
  end.

(** What the specification calls finalizing a popped frame into its
    parent: the children of [child] are normalized and [child] joins the
    array of [parent] that resolved objects go to. *)
Definition adopt (parent child : frame) : option frame :=
  obj ← processChildren (frame_obj child); Some (push_into parent obj).

(** [held] finalized into the first frame of [below], that frame into the
    next, and so on: the last of them, holding all the others. *)
Fixpoint nest (held : frame) (below : list frame) : option frame :=
  match below with
  | [] => Some held
  | g :: below' => g' ← adopt g held; nest g' below'
  end.

(** The same of a stack, top first. *)
Definition nest_all (s : list frame) : option frame :=
  match s with
  | [] => None
  | f :: s' => nest f s'
  end.

(** Finalizing a frame when no frame is open: the node that joins the
    result. *)
Definition finalized (f : frame) : option value :=
  obj ← processChildren (frame_obj f); processObject obj.

(** [g] is the frame [f], whatever the two have collected. *)
Definition same_frame (f g : frame) : Prop :=
  match f, g with
  | Elem id tag _ _, Elem id' tag' _ _ => id' = id ∧ tag' = tag
  | Block ty id v _, Block ty' id' v' _ => ty' = ty ∧ id' = id ∧ v' = v
  | _, _ => False
  end.

(** [after] has the frames of [before], in the same order: those under
    the top one exactly as they were, the top one whatever it has
    collected. *)
Definition same_frames (before after : list frame) : Prop :=
  match before, after with
  | [], [] => True
  | f :: r, g :: r' => same_frame f g ∧ r' = r
  | _, _ => False
  end.

(** Every child of the frame can be normalized: [processObject] gives a
    node for it (it is not [null] or [undefined]). *)
Definition processable (f : frame) : Prop :=
  Forall (fun x => is_Some (processObject x)) (f_children f).

(** The frame with its children replaced. *)
Definition with_children (f : frame) (ch : list value) : frame :=
  match f with
  | Elem id tag attrs _ => Elem id tag attrs ch
  | Block ty id v _ => Block ty id v ch
  end.

(** The array of an open frame that resolved objects are pushed to. *)
Definition pushingTo (f : frame) : list value :=
  match f with Elem _ _ attrs _ => attrs | Block _ _ _ ch => ch end.

(** The diagnostic of a mismatched close. *)
Definition mismatch_msg (tagName : value) (openID : string) (id : value) : string :=
  to_str tagName +:+ " tags improperly paired, closing " +:+ openID
  +:+ " with close tag from " +:+ to_str id.

End Stack.


(* ================================================================== *)
(** * Part II: [src/template/template.js] *)
(* ================================================================== *)

Module Template.

(** ** The object store

    [attachViews] writes into the arrays and nodes it is given, and the
    same array can be reached from several nodes, so template graphs live
    in a store: a value is a primitive or a reference to a cell, a cell is
    an array or a plain object (its own properties, in the order in which
    JavaScript enumerates them).
    Cells are never freed; a new cell goes to the end of the store. *)
Abbreviation loc := nat (only parsing).

Inductive val :=
| VUndef
| VNull
| VBool (b : bool)
| VNum (n : Z)
| VStr (s : string)
| VRef (l : loc).

Inductive cell :=
| Arr (xs : list val)
| Obj (props : list (string * val)).

(** The store, with the messages given to [logger.warn]. *)
Record store := mkStore {
  heap : list cell;
  log : list string
}.

(** How a call ends: it returns, it raises a [TypeError], the model ran
    out of [fuel], or the call left what the model covers (a library
    function applied outside its documented domain, a dangling
    reference). *)
Inductive outcome (A : Type) :=
| Ok (a : A)
| Throw
| NoFuel
| Beyond.
Arguments Ok {A} a.
Arguments Throw {A}.
Arguments NoFuel {A}.
Arguments Beyond {A}.

#[global] Instance outcome_bind : MBind outcome := fun A B f m =>
  match m with
  | Ok a => f a
  | Throw => Throw
  | NoFuel => NoFuel
  | Beyond => Beyond
  end.

Fixpoint get (k : string) (ps : list (string * val)) : option val :=
  match ps with
  | [] => None
  | (k', v) :: ps' => if String.eqb k k' then Some v else get k ps'
  end.

(** The decimal digit a character is. *)
Definition digit (c : Ascii.ascii) : option N :=
  let n := Ascii.N_of_ascii c in
  if (48 <=? n)%N && (n <=? 57)%N then Some (n - 48)%N else None.

(** The number a string of decimal digits writes, [acc] being the number
    of the digits read so far. *)
Fixpoint numeral (acc : N) (s : string) : option N :=
  match s with
  | EmptyString => Some acc
  | String c s' => d ← digit c; numeral (10 * acc + d) s'
  end.

(** The array index a property name is, if it is one: the name is the
    canonical decimal numeral (no sign, no leading zero) of an integer
    below [2^32 - 1]. *)
Definition array_index (k : string) : option N :=
  n ← numeral 0 k;
  if String.eqb (pretty n) k && (n <? 2 ^ 32 - 1)%N then Some n else None.

(** The order in which the own property names of an object are
    enumerated ([Object.keys], [for]-[in]): the array indices first, in
    ascending order, then the other names in the order in which they were
    created.  [before k k']: the new name [k] is enumerated before the
    name [k'] that the object has. *)
Definition before (k k' : string) : bool :=
  match array_index k, array_index k' with
  | Some n, Some n' => (n <? n')%N
  | Some _, None => true
  | None, _ => false
  end.

(** A new property: it takes its place in the enumeration. *)
Fixpoint place (ps : list (string * val)) (k : string) (v : val)
  : list (string * val) :=
  match ps with
  | [] => [(k, v)]
  | (k', v') :: ps' =>
      if before k k' then (k, v) :: ps else (k', v') :: place ps' k v
  end.

(** A property the object has: it keeps its place. *)
Fixpoint update (ps : list (string * val)) (k : string) (v : val)
  : list (string * val) :=
  match ps with
  | [] => []
  | (k', v') :: ps' =>
      if String.eqb k k' then (k', v) :: ps' else (k', v') :: update ps' k v
  end.

(** [o[k] = v] *)
Definition set (ps : list (string * val)) (k : string) (v : val)
  : list (string * val) :=
  match get k ps with
  | Some _ => update ps k v
  | None => place ps k v
  end.


Definition truthy (v : val) : bool :=
  match v with
  | VUndef | VNull => false
  | VBool b => b
  | VNum n => negb (n =? 0)%Z
  | VStr s => negb (String.eqb s "")
  | VRef _ => true
  end.

(** [a === b]; references are equal when they are the same cell. *)
Definition strict_eq (a b : val) : bool :=
  match a, b with
  | VUndef, VUndef | VNull, VNull => true
  | VBool x, VBool y => Bool.eqb x y
  | VNum x, VNum y => (x =? y)%Z
  | VStr x, VStr y => String.eqb x y
  | VRef x, VRef y => Nat.eqb x y
  | _, _ => false
  end.

(** The names every object inherits from [Object.prototype]. *)
Definition inherited (k : string) : bool :=
  existsb (String.eqb k)
    ["constructor"; "hasOwnProperty"; "isPrototypeOf"; "propertyIsEnumerable";
     "toLocaleString"; "toString"; "valueOf"; "__proto__";
     "__defineGetter__"; "__defineSetter__"; "__lookupGetter__";
     "__lookupSetter__"].

(** The names [template.js] reads by name (and [r], which the examples
    read): no array, string, number or boolean has or inherits one of
    them. *)
Definition plain (k : string) : bool :=
  existsb (String.eqb k)
    ["root"; "childViews"; "a"; "class"; "f"; "t"; "r"; "templateObj";
     "partials"; "view"; "parentView"; "wrapped"; "el"; "nodeName"].

(** [v.k] or [v[k]]: it raises on [null] and [undefined].  An object
    answers with its own property; for a name it does not have it answers
    [undefined], unless the name is one that every object inherits: the
    function found there is outside the model.  An array, a string, a
    number and a boolean answer [undefined] for the names of [plain] (and
    with their [length]); what they answer for another name, an index or
    a method of theirs, is outside the model. *)
Definition prop (h : list cell) (v : val) (k : string) : outcome val :=
  match v with
  | VUndef | VNull => Throw
  | VRef l =>
      match h !! l with
      | Some (Obj ps) =>
          match get k ps with
          | Some x => Ok x
          | None => if inherited k then Beyond else Ok VUndef
          end
      | Some (Arr xs) =>
          if String.eqb k "length" then Ok (VNum (Z.of_nat (length xs)))
          else if plain k then Ok VUndef else Beyond
      | None => Beyond
      end
  | VStr s =>
      if String.eqb k "length" then Ok (VNum (Z.of_nat (String.length s)))
      else if plain k then Ok VUndef else Beyond
  | _ => if plain k then Ok VUndef else Beyond
  end.

(** A new cell. *)
Definition alloc (s : store) (c : cell) : store * val :=
  (mkStore (heap s ++ [c]) (log s), VRef (length (heap s))).

(** [arr[i] = v] for an index inside the array [arr]. *)
Definition store_index (s : store) (arr : loc) (i : nat) (v : val) : store :=
  match heap s !! arr with
  | Some (Arr xs) => mkStore (<[arr := Arr (<[i := v]> xs)]> (heap s)) (log s)
  | _ => s
  end.

(** [o.k = v] for an object [o]. *)
Definition store_prop (s : store) (o : loc) (k : string) (v : val) : store :=
  match heap s !! o with
  | Some (Obj ps) => mkStore (<[o := Obj (set ps k v)]> (heap s)) (log s)
  | _ => s
  end.

(** [logger.warn] *)
Definition warn (s : store) (msg : string) : store :=
  mkStore (heap s) (log s ++ [msg]).

(** Modelled from the spec: [Context.isArray], the array-detection helper
    of the data-context collaborator ([template_context.js] is not among
    the sources). *)
Definition isArray (h : list cell) (v : val) : bool :=
  match v with
  | VRef l => match h !! l with Some (Arr _) => true | _ => false end
  | _ => false
  end.

(** ** Underscore

    The library functions [attachViews] calls, on the arguments the
    library documents. *)

(** [_.keys(obj)]: the names of the object's own enumerable properties,
    in the order in which they are enumerated. *)
Definition keys (h : list cell) (v : val) : outcome (list string) :=
  match v with
  | VRef l =>
      match h !! l with
      | Some (Obj ps) => Ok (ps.*1)
      | _ => Beyond
      end
  | _ => Beyond
  end.

(** [_.filter(list, function(obj) { return typeof obj === 'string'; })] *)
Fixpoint strings (xs : list val) : list string :=
  match xs with
  | [] => []
  | VStr s :: xs' => s :: strings xs'
  | _ :: xs' => strings xs'
  end.

(** [_.flatten(array, true)]: members that are arrays are replaced by
    their members, one level deep. *)
Fixpoint flatten (h : list cell) (xs : list val) : list val :=
  match xs with
  | [] => []
  | x :: xs' =>
      match x with
      | VRef l =>
          match h !! l with
          | Some (Arr ys) => ys ++ flatten h xs'
          | _ => x :: flatten h xs'
          end
      | _ => x :: flatten h xs'
      end
  end.

(** [_.clone(obj)]: a shallow copy of an array or object; anything else is
    returned as it is. *)
Definition clone (s : store) (v : val) : outcome (store * val) :=
  match v with
  | VRef l =>
      match heap s !! l with
      | Some c => Ok (alloc s c)
      | None => Beyond
      end
  | _ => Ok (s, v)
  end.

(** [className.indexOf(p) > -1] *)
Fixpoint contains (p s : string) : bool :=
  String.prefix p s ||
  match s with
  | EmptyString => false
  | String _ s' => contains p s'
  end.

(** ** [attachViews] *)

(** The cache [childClasses = {flat, padded, length}]. *)
Record classes := mkClasses {
  flat : list string;
  padded : list string;
  len : nat
}.

(** Lines 126-131. *)
Definition parse_childViews (ks : list string) : classes :=
  mkClasses ks (map (fun key => " " +:+ key +:+ " ") ks) (length ks).

(** Lines 145-156: [for (i = childClasses.length; i--; )], the index of
    the first padded name found in [className], going down from the last. *)
Fixpoint find_class (className : string) (padded : list string) (i : nat)
  : option nat :=
  match i with
  | O => None
  | S i' =>
      if contains (default "undefined" (padded !! i')) className
      then Some i'
      else find_class className padded i'
  end.

(** Lines 135-144: the static part of a [class] attribute, padded.  A
    string, or an array of strings and dynamic parts. *)
Definition static_class (h : list cell) (className : val) : outcome string :=
  match className with
  | VStr s => Ok (" " +:+ s +:+ " ")
  | VRef l =>
      match h !! l with
      | Some (Arr xs) => Ok (" " +:+ String.concat " " (strings xs) +:+ " ")
      | _ => Beyond
      end
  | _ => Beyond
  end.

Section attachViews.

(** [var registeredPartials = {}], the object behind the module variable. *)
Variable registeredPartials : val.

(** [ractiveTypes.PARTIAL], a number ([ractive_types.js] is not among the
    sources). *)
Variable PARTIAL : Z.

(** [Context.getInterpolatorKey] ([template_context.js] is not among the
    sources): the name a Partial node refers to. *)
Variable getInterpolatorKey : list cell → val → string.

(** The arguments every recursive call passes on unchanged. *)
Variable view widgetWrapper : val.

(** [rec s template partials childClasses] stands for the recursive call
    [attachViews(view, template, widgetWrapper, partials, childClasses)];
    [budget] bounds the iterations of one loop. *)
Variable rec : store → val → val → option classes → outcome (store * val).
Variable budget : nat.

(** Lines 115-117: [template[i] = attachViews(..., template[i], ...)]
    for [i] from [0] while [i < template.length]. *)
Fixpoint attach_members (n i : nat) (s : store) (template : loc)
    (partials : val) (childClasses : option classes) : outcome store :=
  match heap s !! template with
  | Some (Arr xs) =>
      match xs !! i with
      | None => Ok s
      | Some x =>
          match n with
          | O => NoFuel
          | S n' =>
              '(s, r) ← rec s x partials childClasses;
              let s := store_index s template i r in
              attach_members n' (S i) s template partials childClasses
          end
      end
  | _ => Beyond
  end.

(** Lines 162-164: [template.f[i] = attachViews(..., template.f[i], ...)]
    for [i] from [0] while [i < template.f.length].  [template.f] is read
    anew in every iteration; the array that is written is the one it named
    before the recursive call.  A string for [template.f] is read-only:
    the first store raises (the file is in strict mode). *)
Fixpoint attach_children (n i : nat) (s : store) (template : val)
    (partials : val) (childClasses : option classes) : outcome store :=
  f ← prop (heap s) template "f";
  match f with
  | VRef lf =>
      match heap s !! lf with
      | Some (Arr xs) =>
          match xs !! i with
          | None => Ok s
          | Some x =>
              match n with
              | O => NoFuel
              | S n' =>
                  '(s, r) ← rec s x partials childClasses;
                  let s := store_index s lf i r in
                  attach_children n' (S i) s template partials childClasses
              end
          end
      | _ => Beyond
      end
  | VStr _ => Throw
  | _ => Beyond
  end.

(** Line 166: [template.f = _.flatten(template.f, true)]. *)
Definition flatten_children (s : store) (template : val) : outcome store :=
  f ← prop (heap s) template "f";
  match f, template with
  | VRef lf, VRef lt =>
      match heap s !! lf with
      | Some (Arr xs) =>
          let '(s, flat) := alloc s (Arr (flatten (heap s) xs)) in
          Ok (store_prop s lt "f" flat)
      | _ => Beyond
      end
  | _, _ => Beyond
  end.

(** Lines 123-158: the attempt to replace [template] by a Widget.  The
    result is the store, the template to go on with and the cache. *)
Definition attach_widget (s : store) (template partials : val)
    (childClasses : option classes)
  : outcome (store * val * option classes) :=
  root ← prop (heap s) template "root";
  if truthy root then Ok (s, template, childClasses) else
  childViews ← prop (heap s) view "childViews";
  if negb (truthy childViews) then Ok (s, template, childClasses) else
  cc ← match childClasses with
       | Some cc => Ok cc
       | None => ks ← keys (heap s) childViews; Ok (parse_childViews ks)
       end;
  a ← prop (heap s) template "a";
  if negb (truthy a) then Ok (s, template, Some cc) else
  className ← prop (heap s) a "class";
  if negb (truthy className) then Ok (s, template, Some cc) else
  className ← static_class (heap s) className;
  match find_class className (padded cc) (len cc) with
  | Some i =>
      childView ← prop (heap s) childViews (default "undefined" (flat cc !! i));
      let '(s, tpl) := alloc s (Obj [("templateObj", template);
                                     ("partials", partials);
                                     ("view", VUndef)]) in
      let '(s, widget) := alloc s (Obj [("type", VStr "Widget");
                                        ("constructor", widgetWrapper);
                                        ("childView", childView);
                                        ("template", tpl)]) in
      Ok (s, widget, Some cc)
  | None => Ok (s, template, Some cc)
  end.

(** Lines 170-182: a Partial node is looked up and attached. *)
Definition attach_partial (s : store) (template partials : val)
    (childClasses : option classes) : outcome (store * val) :=
  t ← prop (heap s) template "t";
  if strict_eq t (VNum PARTIAL) then
    let partialName := getInterpolatorKey (heap s) template in
    found ← prop (heap s) partials partialName;
    if negb (truthy found) then
      Ok (warn s ("Warning: no partial registered with the name " +:+ partialName),
          VNull)
    else
      templateObj ← prop (heap s) found "templateObj";
      let partialTemplate := if truthy templateObj then templateObj else found in
      '(s, copy) ← clone s partialTemplate;
      own ← prop (heap s) found "partials";
      rec s copy (if truthy own then own else registeredPartials) childClasses
  else Ok (s, template).

(** The body of [attachViews]. *)
Definition attachViews_body (s : store) (template partials : val)
    (childClasses : option classes) : outcome (store * val) :=
  match template with
  | VStr _ => Ok (s, template)
  | _ =>
    if isArray (heap s) template then
      match template with
      | VRef l =>
          s ← attach_members budget 0 s l partials childClasses;
          Ok (s, template)
      | _ => Beyond
      end
    else
      '(s, template, childClasses) ← attach_widget s template partials childClasses;
      f ← prop (heap s) template "f";
      s ← (if truthy f
           then s ← attach_children budget 0 s template partials childClasses;
                flatten_children s template
           else Ok s);
      attach_partial s template partials childClasses
  end.

End attachViews.

(** [attachViews(view, template, widgetWrapper, partials, childClasses)];
    [fuel] bounds the depth of the recursion and the length of each
    loop. *)
Fixpoint attachViews (registeredPartials : val) (PARTIAL : Z)
    (getInterpolatorKey : list cell → val → string) (fuel : nat)
    (s : store) (view template widgetWrapper partials : val)
    (childClasses : option classes) {struct fuel} : outcome (store * val) :=
  match fuel with
  | O => NoFuel
  | S fuel' =>
      attachViews_body registeredPartials PARTIAL getInterpolatorKey
        view widgetWrapper
        (fun s template partials childClasses =>
           attachViews registeredPartials PARTIAL getInterpolatorKey fuel'
             s view template widgetWrapper partials childClasses)
        fuel' s template partials childClasses
  end.

(** ** Rendering to a string *)

Section toString.

Variable registeredPartials : val.

(** The builders a render can be given; [toString] uses
    [new ToHtmlString()]. *)
Inductive builder := ToHtmlString | ToVdom.

(** What [_render] does with its arguments once they are settled: the
    context is made from [data], [ractiveAdaptor] interprets the template
    into the builder [stack] and [stack.getOutput()] is returned.  The
    adaptor, the context and the two builders are not among the sources;
    [interpret stack h template data partials view] is that output. *)
Variable output : Type.
Variable interpret : builder → list cell → val → val → val → val → output.

(** [Template.prototype._render] *)
Definition _render (s : store) (this template data view partials : val)
    (stack : builder) : outcome output :=
  template ← (if truthy template then Ok template
              else prop (heap s) this "templateObj");
  let partials := if truthy partials then partials else registeredPartials in
  Ok (interpret stack (heap s) template data partials view).

(** Lines 53-56 of [toString]: the template it goes on to render. *)
Definition templateToRender (s : store) (this : val) : outcome val :=
  templateObj ← prop (heap s) this "templateObj";
  view ← prop (heap s) this "view";
  if truthy view then
    parentView ← prop (heap s) view "parentView";
    if negb (truthy parentView) then prop (heap s) templateObj "f"
    else Ok templateObj
  else Ok templateObj.

(** [Template.prototype.toString] *)
Definition toString (s : store) (this data : val) : outcome output :=
  template ← templateToRender s this;
  partials ← prop (heap s) this "partials";
  _render s this template data VNull partials ToHtmlString.

End toString.

(** ** Vocabulary of the properties *)

(** The graph under a value, unfolded to depth [d]: what a structural
    comparison of two graphs compares. *)
Inductive tree :=
| Leaf (v : val)
| Members (ts : list tree)
| Props (ps : list (string * tree))
| Cut
| Dangling.

Fixpoint unfold (d : nat) (h : list cell) (v : val) : tree :=
  match v with
  | VRef l =>
      match d with
      | O => Cut
      | S d' =>
          match h !! l with
          | Some (Arr xs) => Members (map (unfold d' h) xs)
          | Some (Obj ps) => Props (map (fun kv => (kv.1, unfold d' h kv.2)) ps)
          | None => Dangling
          end
      end
  | _ => Leaf v
  end.

(** What [attachViews] keeps of a cell: an array its length, an object
    every property but [f]. *)
Definition cell_kept (c c' : cell) : Prop :=
  match c, c' with
  | Arr xs, Arr xs' => length xs' = length xs
  | Obj ps, Obj ps' => ∀ k, k ≠ "f" → get k ps' = get k ps
  | _, _ => False
  end.

Definition kept (h h' : list cell) : Prop :=
  ∀ l c, h !! l = Some c → ∃ c', h' !! l = Some c' ∧ cell_kept c c'.

(** A [getInterpolatorKey] for the examples: the node's [r]. *)
Definition key_r (h : list cell) (v : val) : string :=
  match prop h v "r" with
  | Ok (VStr s) => s
  | _ => ""
  end.

(** ** Stores of the examples *)

(** The store of the examples: a wrapper element [div] over the children
    [["hi"]], a top-level view, a view nested in it, and a Template bound
    to each. *)
Definition views_store : store :=
  mkStore
    [ Obj [("t", VNum 7); ("e", VStr "div"); ("f", VRef 1)];
      Arr [VStr "hi"];
      Obj [("parentView", VUndef)];
      Obj [("parentView", VRef 2)];
      Obj [("templateObj", VRef 0); ("partials", VUndef); ("view", VRef 2)];
      Obj [("templateObj", VRef 0); ("partials", VUndef); ("view", VRef 3)] ]
    [].

(** The same with a third Template over the graph, bound to no view
    (cell 6). *)
Definition bound_store : store :=
  mkStore
    (heap views_store ++
     [ Obj [("templateObj", VRef 0); ("partials", VUndef); ("view", VUndef)] ])
    [].

(** An adaptor that answers with the template it was handed. *)
Definition handed_template (_ : builder) (_ : list cell)
    (template _ _ _ : val) : val := template.

(** An adaptor that answers with the view it was handed. *)
Definition handed_view (_ : builder) (_ : list cell)
    (_ _ _ view : val) : val := view.

(** A Partial node [header], a supplied partials map without that name
    (cell 0) and a registry that has it (cell 1); the view has no child
    views. *)
Definition header_store : store :=
  mkStore
    [ Obj [];
      Obj [("header", VRef 2)];
      Obj [("t", VNum 7); ("e", VStr "h1")];
      Obj [("t", VNum 8); ("r", VStr "header")];
      Obj [] ]
    [].

(** A Partial node [header] with one child, the text [x] (cells 0 and
    1), a supplied partials map without that name (cell 2) and a registry
    that has it (cells 3 and 4); the view (cell 5) has no child views. *)
Definition children_store : store :=
  mkStore
    [ Obj [("t", VNum 8); ("r", VStr "header"); ("f", VRef 1)];
      Arr [VStr "x"];
      Obj [];
      Obj [("header", VRef 4)];
      Obj [("t", VNum 7); ("e", VStr "h1")];
      Obj [] ]
    [].



(** A graph that is an array of one Partial node [row] (cell 3), and a
    registry (cell 5) whose [row] is [<ul><li class="item"></li></ul>]
    (cells 6 to 9); the view has the child view [item]. *)
Definition row_store : store :=
  mkStore
    [ Obj [("childViews", VRef 1)];
      Obj [("item", VRef 2)];
      Obj [("debugName", VStr "ItemView")];
      Arr [VRef 4];
      Obj [("t", VNum 8); ("r", VStr "row")];
      Obj [("row", VRef 6)];
      Obj [("t", VNum 7); ("e", VStr "ul"); ("f", VRef 7)];
      Arr [VRef 8];
      Obj [("t", VNum 7); ("e", VStr "li"); ("a", VRef 9)];
      Obj [("class", VStr "item")];
      Obj [] ]
    [].

(** ** The rest of the facade *)

(** [o.k = v] in strict mode: it raises when [o] is not an object.  An
    array can take a named property, but array cells have none: there the
    call leaves what the store covers. *)
Definition assign_prop (s : store) (o : val) (k : string) (v : val)
  : outcome store :=
  match o with
  | VRef l =>
      match heap s !! l with
      | Some (Obj _) => Ok (store_prop s l k v)
      | _ => Beyond
      end
  | _ => Throw
  end.

(** [new Template(templateObj, partials, view)] *)
Definition new_Template (s : store) (templateObj partials view : val)
  : store * val :=
  alloc s (Obj [("templateObj", templateObj); ("partials", partials);
                ("view", view)]).

Section facade.

Variable registeredPartials : val.

(** [ractiveTypes.ELEMENT] and [ractiveTypes.PARTIAL], two numbers
    ([ractive_types.js] is not among the sources). *)
Variable ELEMENT PARTIAL : Z.

Variable getInterpolatorKey : list cell → val → string.

Variable output : Type.
Variable interpret : builder → list cell → val → val → val → val → output.

(** [Template.prototype.setPartials] *)
Definition setPartials (s : store) (this partials : val) : outcome store :=
  assign_prop s this "partials" partials.


(** [Template.prototype.toVdom] *)
Definition toVdom (s : store) (this data : val) : outcome output :=
  templateObj ← prop (heap s) this "templateObj";
  view ← prop (heap s) this "view";
  partials ← prop (heap s) this "partials";
  _render registeredPartials output interpret s this templateObj data view
    partials ToVdom.

(** [Template.prototype.wrap] *)
Definition wrap (s : store) (this tagName : val) : outcome (store * val) :=
  templateObj ← prop (heap s) this "templateObj";
  let '(s, graph) :=
    alloc s (Obj [("t", VNum ELEMENT);
                  ("e", if truthy tagName then tagName else VStr "div");
                  ("f", templateObj)]) in
  partials ← prop (heap s) this "partials";
  let '(s, template) := new_Template s graph partials VUndef in
  s ← assign_prop s template "wrapped" (VBool true);
  Ok (s, template).

(** [Template.prototype.attachView] *)
Definition attachView (fuel : nat) (s : store) (this view widgetWrapper : val)
  : outcome (store * val) :=
  templateObj ← prop (heap s) this "templateObj";
  '(s, templateObj) ← clone s templateObj;
  s ← assign_prop s templateObj "root" (VBool true);
  parentView ← prop (heap s) view "parentView";
  '(s, templateObj) ←
    (if negb (truthy parentView) then
       wrapped ← prop (heap s) this "wrapped";
       if negb (truthy wrapped) then
         el ← prop (heap s) view "el";
         nodeName ← prop (heap s) el "nodeName";
         Ok (alloc s (Obj [("t", VNum ELEMENT); ("e", nodeName);
                           ("f", templateObj)]))
       else Ok (s, templateObj)
     else Ok (s, templateObj));
  partials ← prop (heap s) this "partials";
  '(s, templateObj) ←
    attachViews registeredPartials PARTIAL getInterpolatorKey fuel
      s view templateObj widgetWrapper
      (if truthy partials then partials else registeredPartials) None;
  partials ← prop (heap s) this "partials";
  let '(s, template) := new_Template s templateObj partials view in
  wrapped ← prop (heap s) this "wrapped";
  s ← assign_prop s template "wrapped" wrapped;
  Ok (s, template).

End facade.

(** ** More vocabulary *)

(** No space in [s]. *)
Fixpoint no_space (s : string) : bool :=
  match s with
  | EmptyString => true
  | String c s' => negb (Ascii.eqb c (Ascii.Ascii false false false false false true false false)) && no_space s'
  end.

(** A Partial node that names the partial [loop] (cell 0), a registry in
    which [loop] is that node (cell 1), and a view without child views
    (cell 2). *)
Definition loop_store : store :=
  mkStore
    [ Obj [("t", VNum 8); ("r", VStr "loop")];
      Obj [("loop", VRef 0)];
      Obj [] ]
    [].

(** A graph that is an array of one Partial node [missing] (cells 0 and
    1), a partials map without that name (cell 2) and a view without
    child views (cell 3). *)
Definition missing_store : store :=
  mkStore
    [ Arr [VRef 1];
      Obj [("t", VNum 8); ("r", VStr "missing")];
      Obj [];
      Obj [] ]
    [].

(** A Template (cell 2) over the graph [[<li class="item">]] (cells 0 and
    1, attributes in cell 5), a registry (cell 3), a top-level view with
    the child view [item] (cells 4, 6 and 7) and a widget wrapper
    (cell 8). *)
Definition page_store : store :=
  mkStore
    [ Arr [VRef 1];
      Obj [("t", VNum 7); ("e", VStr "li"); ("a", VRef 5)];
      Obj [("templateObj", VRef 0); ("partials", VUndef); ("view", VUndef)];
      Obj [];
      Obj [("childViews", VRef 6); ("el", VRef 7)];
      Obj [("class", VStr "item")];
      Obj [("item", VStr "ItemView")];
      Obj [("nodeName", VStr "SECTION")];
      Obj [] ]
    [].

(** A root element [<li class="item">] (cell 2) and a view whose child
    views have the selector [item]. *)
Definition root_store : store :=
  mkStore
    [ Obj [("childViews", VRef 1)];
      Obj [("item", VStr "ItemView")];
      Obj [("t", VNum 7); ("e", VStr "li"); ("a", VRef 3); ("root", VBool true)];
      Obj [("class", VStr "item")];
      Obj [] ]
    [].

(** An element [<li class="item-big">] (cell 2) and a view whose child
    views have the selectors [item] and [big]. *)
Definition plain_store : store :=
  mkStore
    [ Obj [("childViews", VRef 1)];
      Obj [("item", VStr "ItemView"); ("big", VStr "BigView")];
      Obj [("t", VNum 7); ("e", VStr "li"); ("a", VRef 3)];
      Obj [("class", VStr "item-big")];
      Obj [] ]
    [].

(** [page_store] with its Template wrapped in a [div]: the wrapper element
    (cell 9) and the wrapped Template (cell 10). *)
Definition wrapped_store : store :=
  mkStore
    (heap page_store ++
     [ Obj [("t", VNum 7); ("e", VStr "div"); ("f", VRef 0)];
       Obj [("templateObj", VRef 9); ("partials", VUndef); ("view", VUndef);
            ("wrapped", VBool true)] ])
    [].

(** The one diagnostic of [attachViews]. *)
Definition unregistered_warning (w : string) : bool :=
  String.prefix "Warning: no partial registered with the name " w.

(** [s'] has the log of [s], and after it warnings of unregistered
    partials only. *)
Definition logged (s s' : store) : Prop :=
  ∃ ws, log s' = log s ++ ws ∧ forallb unregistered_warning ws = true.

End Template.

(* ================================================================== *)
(** * Part III: properties of the builder *)
(* ================================================================== *)

Module StackFacts.
Import Stack.

(** ** Unfolding [closeElement] *)

Lemma closeElement_body_open self1 self2 st c f :
  peek st = Some f →
  closeElement_body self1 st c = closeElement_body self2 st c.
Proof. intros Hp. unfold closeElement_body. by rewrite Hp. Qed.

Lemma openElement_peek st type v :
  peek (fst (openElement st type v)) = Some (snd (openElement st type v)).
Proof. reflexivity. Qed.

(** [closeElement] is the function its source defines recursively. *)
Lemma closeElement_unfold st c :
  closeElement st c = closeElement_body closeElement st c.
Proof.
  unfold closeElement at 1. unfold closeElement_body at 1 3.
  destruct (peek st) as [f|] eqn:Hp; [done|].
  destruct (strict_eq (c_tagName c) (VStr "p")); [|done].
  destruct (openElement st (VStr "p") (VObj [])) as [st1 el] eqn:Ho.
  apply closeElement_body_open with (f := el).
  pose proof (openElement_peek st (VStr "p") (VObj [])) as H.
  by rewrite Ho in H.
Qed.

(** ** Strings and [push] *)



Lemma push_obj l ps : push l (VObj ps) = l ++ [VObj ps].
Proof. reflexivity. Qed.

(** ** Objects *)

Lemma assoc_assign_eq ps k v : assoc k (assign ps k v) = Some v.
Proof.
  induction ps as [|[k' v'] ps IH]; simpl.
  - by rewrite String.eqb_refl.
  - destruct (String.eqb k k') eqn:E; simpl; rewrite E; [done|exact IH].
Qed.

Lemma assoc_assign_ne ps k k' v :
  k ≠ k' → assoc k' (assign ps k v) = assoc k' ps.
Proof.
  intros Hne. induction ps as [|[k0 v0] ps IH]; simpl.
  - destruct (String.eqb k' k) eqn:E; [|done].
    apply String.eqb_eq in E. congruence.
  - destruct (String.eqb k k0) eqn:E; simpl.
    + apply String.eqb_eq in E. subst k0.
      destruct (String.eqb k' k) eqn:E'; [|done].
      apply String.eqb_eq in E'. congruence.
    + by rewrite IH.
Qed.

Lemma strict_eq_str x s : strict_eq x (VStr s) = true ↔ x = VStr s.
Proof.
  destruct x; simpl; try (split; [discriminate|discriminate]).
  rewrite String.eqb_eq. split; congruence.
Qed.

Lemma processObject_obj ps v :
  processObject (VObj ps) = Some v → ∃ ps', v = VObj ps'.
Proof.
  unfold processObject.
  repeat match goal with
         | |- context [if ?b then _ else _] => destruct b
         | |- context [has_children ?o] => destruct (has_children o) as [[]|]
         end; simpl; intros [= <-]; eauto.
Qed.

Lemma processObject_array_children ps xs :
  field "children" (VObj ps) = VArr xs → is_Some (processObject (VObj ps)).
Proof.
  intros Hc. unfold processObject, has_children. rewrite Hc.
  repeat match goal with
         | |- context [if ?b then _ else _] => destruct b
         end; simpl; eauto.
Qed.

Lemma processChildren_field ps o k :
  processChildren (VObj ps) = Some o → k ≠ "children" →
  field k o = field k (VObj ps).
Proof.
  unfold processChildren. intros H Hk.
  destruct (field "children" (VObj ps)) as [| | | | |xs|cps]; simplify_eq;
    try done.
  2:{ destruct (truthy (field "length" (VObj cps))); by simplify_eq. }
  destruct xs as [|x xs]; simplify_eq; [done|].
  destruct (mapM processObject (x :: xs)) eqn:Hm; simpl in H; simplify_eq.
  unfold field. rewrite assoc_assign_ne; done.
Qed.

Lemma processChildren_obj ps o :
  processChildren (VObj ps) = Some o → ∃ ps', o = VObj ps'.
Proof.
  unfold processChildren. intros H.
  destruct (field "children" (VObj ps)) as [| | | | |xs|cps]; simplify_eq;
    eauto.
  2:{ destruct (truthy (field "length" (VObj cps))); simplify_eq; eauto. }
  destruct xs as [|x xs]; simplify_eq; eauto.
  destruct (mapM processObject (x :: xs)) eqn:Hm; simpl in H; simplify_eq.
  eauto.
Qed.

(** ** Finalizing a frame *)

Lemma processChildren_frame f :
  processable f →
  ∃ ch, mapM processObject (f_children f) = Some ch
        ∧ processChildren (frame_obj f) = Some (frame_obj (with_children f ch)).
Proof.
  intros Hp. apply mapM_is_Some in Hp as [ch Hch]. exists ch. split; [done|].
  destruct f as [id tag attrs ch0|ty id v ch0]; simpl in Hch;
    (destruct ch0 as [|x xs];
     [ injection Hch as <-; reflexivity
     | unfold processChildren;
       change (field "children" _) with (VArr (x :: xs)); cbv beta iota;
       rewrite Hch; reflexivity ]).
Qed.

Lemma frame_obj_normalizes f : is_Some (processObject (frame_obj f)).
Proof.
  destruct f; eapply processObject_array_children; reflexivity.
Qed.

Lemma push_into_tagName top o : f_tagName (push_into top o) = f_tagName top.
Proof. by destruct top. Qed.

Lemma push_into_processable top f :
  processable top → processable (push_into top (frame_obj f)).
Proof.
  unfold processable. destruct top; simpl; [done|].
  intros H. destruct f; simpl; apply Forall_app; split; try done;
    apply Forall_singleton; eapply processObject_array_children; reflexivity.
Qed.

(** Finalizing a frame into the frame below it. *)
Lemma closeElem_frame_open st f top rest :
  stack st = top :: rest → processable f →
  ∃ f', _closeElem st (frame_obj f)
        = Some (set_stack st (push_into top (frame_obj f') :: rest)).
Proof.
  intros Hs Hp. destruct (processChildren_frame f Hp) as (ch & _ & Hc).
  unfold _closeElem. rewrite Hc. simpl. rewrite Hs. eauto.
Qed.

(** Finalizing a frame when no frame is left: one node joins the result. *)
Lemma closeElem_frame_root st f :
  stack st = [] → processable f →
  ∃ node, _closeElem st (frame_obj f)
          = Some (set_result st (result st ++ [VObj node])).
Proof.
  intros Hs Hp. destruct (processChildren_frame f Hp) as (ch & _ & Hc).
  unfold _closeElem. rewrite Hc. simpl. rewrite Hs.
  destruct (frame_obj_normalizes (with_children f ch)) as [v Hv].
  rewrite Hv. simpl.
  destruct (with_children f ch);
    apply processObject_obj in Hv as [node ->]; eauto.
Qed.

(** ** The unwinding loop *)

Lemma unwind_done fuel st tagName :
  unwind fuel st None tagName = Some (st, None).
Proof. by destruct fuel. Qed.

Lemma unwind_spec tagName : ∀ s fuel st f,
  stack st = s → length s < fuel →
  processable f → Forall processable s →
  ∃ st' held, unwind fuel st (Some f) tagName = Some (st', held)
    ∧ stack st' = below_match tagName (f :: s)
    ∧ log st' = log st
    ∧ (Forall (fun g => strict_eq (f_tagName g) tagName = false) (f :: s) →
       length (result st') = S (length (result st))).
Proof.
  induction s as [|top rest IH]; intros fuel st f Hs Hfuel Hf Hrest.
  - destruct fuel as [|fuel]; [simpl in Hfuel; lia|].
    simpl. destruct (strict_eq (f_tagName f) tagName) eqn:E; simpl.
    + exists st, (Some f). split; [reflexivity|]. split; [done|].
      split; [done|].
      intros HF. apply Forall_cons in HF as [HF _]. congruence.
    + destruct (closeElem_frame_root st f Hs Hf) as [node ->]. simpl.
      rewrite Hs. simpl. rewrite unwind_done. eexists _, _.
      split; [reflexivity|].
      split; [reflexivity|]. split; [reflexivity|].
      intros _. simpl. rewrite length_app. simpl. lia.
  - destruct fuel as [|fuel]; [simpl in Hfuel; lia|].
    simpl. destruct (strict_eq (f_tagName f) tagName) eqn:E; simpl.
    + exists st, (Some f). split; [reflexivity|]. split; [done|].
      split; [done|].
      intros HF. apply Forall_cons in HF as [HF _]. congruence.
    + destruct (closeElem_frame_open st f top rest Hs Hf) as [f' ->]. simpl.
      apply Forall_cons in Hrest as [Htop Hrest].
      destruct (IH fuel (set_stack (set_stack st (push_into top (frame_obj f') :: rest)) rest)
                   (push_into top (frame_obj f')))
        as (st' & held & Hu & Hst & Hlog & Hres); try done.
      { simpl in Hfuel. lia. }
      { by apply push_into_processable. }
      exists st', held. split; [exact Hu|]. split; [|split].
      * rewrite Hst. simpl. by rewrite push_into_tagName.
      * exact Hlog.
      * intros HF. apply Forall_cons in HF as [_ HF].
        apply Forall_cons in HF as [Ht HF]. rewrite Hres; [done|].
        apply Forall_cons. by rewrite push_into_tagName.
Qed.

Lemma below_match_shorter tagName s :
  s ≠ [] → length (below_match tagName s) < length s.
Proof.
  induction s as [|f s IH]; [done|]. intros _. simpl.
  destruct (strict_eq (f_tagName f) tagName); [lia|].
  destruct s as [|g s]; [simpl; lia|].
  specialize (IH ltac:(done)). simpl in *. lia.
Qed.

Lemma below_match_none tagName s :
  Forall (fun g => strict_eq (f_tagName g) tagName = false) s →
  below_match tagName s = [].
Proof.
  induction 1 as [|f s Hf _ IH]; [done|]. simpl. by rewrite Hf.
Qed.

(** ** [closeElement] *)

Lemma closeElement_mismatch st c top rest :
  stack st = top :: rest →
  strict_eq (VStr (f_id top)) (c_id c) = false →
  closeElement st c
  = r ← unwind (S (length rest))
        (set_stack (warn st (mismatch_msg (c_tagName c) (f_id top) (c_id c))) rest)
        (Some top) (c_tagName c);
    Some r.1.
Proof.
  intros Hs Hid.
  unfold closeElement, closeElement_body at 1, peek. rewrite Hs.
  cbn [head]. rewrite Hid. cbn [negb].
  unfold popElement, warn. cbn [stack fst snd set_stack startID result log].
  rewrite Hs. reflexivity.
Qed.

Lemma closeElement_mismatch_spec st c top rest :
  stack st = top :: rest →
  strict_eq (VStr (f_id top)) (c_id c) = false →
  Forall processable (stack st) →
  ∃ st', closeElement st c = Some st'
    ∧ log st' = log st ++ [mismatch_msg (c_tagName c) (f_id top) (c_id c)]
    ∧ stack st' = below_match (c_tagName c) (stack st)
    ∧ length (stack st') < length (stack st)
    ∧ (Forall (fun g => strict_eq (f_tagName g) (c_tagName c) = false) (stack st) →
       stack st' = [] ∧ length (result st') = S (length (result st))).
Proof.
  intros Hs Hid Hp. rewrite Hs in Hp. apply Forall_cons in Hp as [Htop Hrest].
  rewrite (closeElement_mismatch st c top rest Hs Hid).
  destruct (unwind_spec (c_tagName c) rest (S (length rest))
              (set_stack (warn st (mismatch_msg (c_tagName c) (f_id top) (c_id c))) rest)
              top) as (st' & held & Hu & Hst & Hlog & Hres); try done.
  { lia. }
  exists st'. split; [by rewrite Hu|]. split; [exact Hlog|].
  rewrite Hs. split; [exact Hst|]. split.
  - rewrite Hst. by apply below_match_shorter.
  - intros HF. split.
    + rewrite Hst. by apply below_match_none.
    + by rewrite Hres.
Qed.

(** A close request whose address is the address of the top frame pops
    that frame and finalizes it. *)
Lemma closeElement_match st c top rest :
  stack st = top :: rest →
  strict_eq (VStr (f_id top)) (c_id c) = true →
  closeElement st c = _closeElem (set_stack st rest) (frame_obj top).
Proof.
  intros Hs Hid.
  unfold closeElement, closeElement_body at 1, peek. rewrite Hs.
  cbn [head]. rewrite Hid. cbn [negb].
  unfold popElement. rewrite Hs. reflexivity.
Qed.

(** A stray close tagged [p]: see C3. *)
Lemma closeElement_stray_p sid res lg id :
  closeElement (mkState sid res [] lg) (mkClosing id (VStr "p"))
  = Some (mkState sid (res ++ [VObj []]) [] lg).
Proof.
  unfold closeElement, closeElement_body, peek. simpl.
  rewrite String.eqb_refl. reflexivity.
Qed.

(** A stray close with any other tag: one diagnostic, nothing else. *)
Lemma closeElement_stray_other sid res lg id tagName :
  strict_eq tagName (VStr "p") = false →
  closeElement (mkState sid res [] lg) (mkClosing id tagName)
  = Some (mkState sid res [] (lg ++ ["Closing element " +:+ to_str id
                                     +:+ " when the stack was empty"])).
Proof.
  intros H. unfold closeElement, closeElement_body, peek. simpl.
  rewrite H. reflexivity.
Qed.

(** [closeElement] returns, whatever the request and the stack. *)
Lemma closeElement_returns st c :
  Forall processable (stack st) → is_Some (closeElement st c).
Proof.
  intros Hp. destruct (stack st) as [|top rest] eqn:Hs.
  - destruct st as [sid res stk lg], c as [id tagName]. simpl in Hs. subst stk.
    destruct (strict_eq tagName (VStr "p")) eqn:E.
    + apply strict_eq_str in E as ->. rewrite closeElement_stray_p. eauto.
    + rewrite closeElement_stray_other; eauto.
  - destruct (strict_eq (VStr (f_id top)) (c_id c)) eqn:Hid.
    + rewrite (closeElement_match st c top rest Hs Hid).
      apply Forall_cons in Hp as [Htop Hrest].
      destruct rest as [|below rest'].
      * destruct (closeElem_frame_root (set_stack st []) top eq_refl Htop)
          as [node ->]. eauto.
      * destruct (closeElem_frame_open (set_stack st (below :: rest')) top
                    below rest' eq_refl Htop) as [f' ->]. eauto.
    + rewrite <- Hs in Hp.
      destruct (closeElement_mismatch_spec st c top rest Hs Hid Hp)
        as (st' & -> & _). eauto.
Qed.

(** ** The frames the loop finalizes *)

Lemma closeElem_adopt st f top rest :
  stack st = top :: rest →
  _closeElem st (frame_obj f)
  = g ← adopt top f; Some (set_stack st (g :: rest)).
Proof.
  intros Hs. unfold _closeElem, adopt.
  destruct (processChildren (frame_obj f)) as [o|]; [simpl|done].
  by rewrite Hs.
Qed.

Lemma adopt_frame top f :
  processable f → ∃ f', adopt top f = Some (push_into top (frame_obj f')).
Proof.
  intros Hp. destruct (processChildren_frame f Hp) as (ch & _ & Hc).
  unfold adopt. rewrite Hc. simpl. eauto.
Qed.

Lemma closeElem_finalized st f :
  stack st = [] →
  _closeElem st (frame_obj f)
  = v ← finalized f; Some (set_result st (push (result st) v)).
Proof.
  intros Hs. unfold _closeElem, finalized.
  destruct (processChildren (frame_obj f)) as [o|]; [simpl|done].
  by rewrite Hs.
Qed.

Lemma finalized_frame f : processable f → is_Some (finalized f).
Proof.
  intros Hp. destruct (processChildren_frame f Hp) as (ch & _ & Hc).
  unfold finalized. rewrite Hc. simpl. apply frame_obj_normalizes.
Qed.

Lemma same_frame_refl f : same_frame f f.
Proof. by destruct f. Qed.

Lemma same_frames_refl s : same_frames s s.
Proof. destruct s; [done|]. split; [apply same_frame_refl|done]. Qed.

(** The loop, when a frame has the tag name: the frames above it are
    finalized each into the next, the last of them into that frame, and
    the loop ends holding it, with the frames below it on the stack. *)
Lemma unwind_match tagName : ∀ above fuel st f m below,
  stack st = above ++ m :: below →
  length above < fuel →
  Forall (fun g => strict_eq (f_tagName g) tagName = false) (f :: above) →
  strict_eq (f_tagName m) tagName = true →
  processable f → Forall processable above →
  ∃ m', nest f (above ++ [m]) = Some m'
    ∧ unwind fuel st (Some f) tagName = Some (set_stack st below, Some m').
Proof.
  induction above as [|a above IH]; intros fuel st f m below Hs Hfuel Hd Hm Hf Ha;
    (destruct fuel as [|fuel]; [simpl in Hfuel; lia|]);
    apply Forall_cons in Hd as [Hdf Hd]; cbn [unwind]; rewrite Hdf; cbn [negb].
  - destruct (adopt_frame m f Hf) as [f' Hf'].
    rewrite (closeElem_adopt st f m below Hs), Hf'. cbn [mbind option_bind].
    exists (push_into m (frame_obj f')). cbn [app nest]. rewrite Hf'.
    split; [reflexivity|].
    cbn [popElement stack set_stack head tail].
    destruct fuel; cbn [unwind]; rewrite push_into_tagName, Hm; reflexivity.
  - apply Forall_cons in Hd as [Hda Hd]. apply Forall_cons in Ha as [Hpa Ha].
    destruct (adopt_frame a f Hf) as [f' Hf'].
    rewrite (closeElem_adopt st f a (above ++ m :: below) Hs), Hf'.
    cbn [mbind option_bind popElement stack set_stack head tail].
    destruct (IH fuel
                (set_stack (set_stack st (push_into a (frame_obj f')
                                          :: above ++ m :: below))
                   (above ++ m :: below))
                (push_into a (frame_obj f')) m below)
      as (m' & Hn & Hu); try done.
    { simpl in Hfuel. lia. }
    { apply Forall_cons. split; [by rewrite push_into_tagName|done]. }
    { by apply push_into_processable. }
    exists m'. split; [|exact Hu].
    cbn [app nest]. rewrite Hf'. exact Hn.
Qed.

(** The loop, when no frame has the tag name: every frame is finalized
    into the next, the last into the result. *)
Lemma unwind_nomatch tagName : ∀ below fuel st f,
  stack st = below →
  length below < fuel →
  Forall (fun g => strict_eq (f_tagName g) tagName = false) (f :: below) →
  processable f → Forall processable below →
  ∃ whole v, nest f below = Some whole ∧ finalized whole = Some v
    ∧ unwind fuel st (Some f) tagName
      = Some (mkState (startID st) (push (result st) v) [] (log st), None).
Proof.
  induction below as [|a below IH]; intros fuel st f Hs Hfuel Hd Hf Ha;
    (destruct fuel as [|fuel]; [simpl in Hfuel; lia|]);
    apply Forall_cons in Hd as [Hdf Hd]; cbn [unwind]; rewrite Hdf; cbn [negb].
  - destruct (finalized_frame f Hf) as [v Hv].
    exists f, v. split; [reflexivity|]. split; [exact Hv|].
    rewrite (closeElem_finalized st f Hs), Hv.
    cbn [mbind option_bind popElement stack set_result set_stack head tail].
    rewrite Hs. cbn [head tail]. by rewrite unwind_done.
  - apply Forall_cons in Hd as [Hda Hd]. apply Forall_cons in Ha as [Hpa Ha].
    destruct (adopt_frame a f Hf) as [f' Hf'].
    rewrite (closeElem_adopt st f a below Hs), Hf'.
    cbn [mbind option_bind popElement stack set_stack head tail].
    destruct (IH fuel
                (set_stack (set_stack st (push_into a (frame_obj f') :: below))
                   below)
                (push_into a (frame_obj f')))
      as (whole & v & Hn & Hv & Hu); try done.
    { simpl in Hfuel. lia. }
    { apply Forall_cons. split; [by rewrite push_into_tagName|done]. }
    { by apply push_into_processable. }
    exists whole, v. split; [|split; [exact Hv|exact Hu]].
    cbn [nest]. rewrite Hf'. exact Hn.
Qed.

(** C2 (amended).  Whatever the close request and the stack (every child
    of an open frame being one that can be normalized), [closeElement]
    returns.  When the address of the request differs from the address of
    the frame on top of the stack, it has logged exactly one diagnostic,
    which names the tag, the address of the top frame and the address of
    the request (in the words of [mismatch_msg] when the tag and the
    address print as JavaScript prints them), and the stack is strictly
    shorter.  For a tag name that is a string, or another primitive, the
    loop pops frames up to and including the first frame whose tag name
    is the request's.  Each frame popped before that one is
    finalized into the frame below it: the loop ends holding the matching
    frame with all of them nested in it, and the frames that lay below the
    matching frame are what the stack is left with, the one on top of
    them whatever it has collected; nothing is taken from the result.
    When no frame has the tag name, every frame is finalized into the
    frame below it and the last one, holding all the others, into the
    result: the stack is left empty. *)
Theorem closeElement_mismatch_unwinds st c :
  Forall processable (stack st) →
  ∃ st', closeElement st c = Some st'
    ∧ ∀ top rest,
        stack st = top :: rest →
        strict_eq (VStr (f_id top)) (c_id c) = false →
        let differs g := strict_eq (f_tagName g) (c_tagName c) = false in
        let entered :=
          set_stack (warn st (mismatch_msg (c_tagName c) (f_id top) (c_id c)))
            rest in
        (∃ msg, log st' = log st ++ [msg]
                ∧ (printable (c_tagName c) = true → printable (c_id c) = true →
                   msg = mismatch_msg (c_tagName c) (f_id top) (c_id c)))
        ∧ startID st' = startID st
        ∧ length (stack st') < length (stack st)
        ∧ (primitive (c_tagName c) = true →
           (∀ above m below,
              stack st = above ++ m :: below →
              Forall differs above →
              strict_eq (f_tagName m) (c_tagName c) = true →
              ∃ m', nest_all (above ++ [m]) = Some m'
                ∧ unwind (S (length rest)) entered (Some top) (c_tagName c)
                  = Some (set_stack entered below, Some m')
                ∧ same_frames below (stack st')
                ∧ ∃ more, result st' = result st ++ more)
           ∧ (Forall differs (stack st) →
              ∃ whole v, nest_all (stack st) = Some whole
                ∧ finalized whole = Some v
                ∧ stack st' = []
                ∧ result st' = push (result st) v)).
Proof.
  intros Hp. destruct (closeElement_returns st c Hp) as [st' Hst'].
  exists st'. split; [exact Hst'|].
  intros top rest Hs Hid differs entered.
  destruct (closeElement_mismatch_spec st c top rest Hs Hid Hp)
    as (st'' & Hst'' & Hlog & Hstack & Hlen & _).
  rewrite Hst' in Hst''. injection Hst'' as <-.
  rewrite (closeElement_mismatch st c top rest Hs Hid) in Hst'.
  fold entered in Hst'.
  pose proof Hp as Hp'. rewrite Hs in Hp'.
  apply Forall_cons in Hp' as [Htop Hrest].
  split; [eauto|].
  split.
  { destruct (unwind _ entered _ _) as [[st2 held]|] eqn:Hu; [|done].
    injection Hst' as <-.
    destruct (unwind_spec (c_tagName c) rest (S (length rest)) entered top)
      as (st3 & held3 & Hu3 & _); try done; [simpl; lia|].
    clear Hu3.
    assert (∀ fuel s o s' h, unwind fuel s o (c_tagName c) = Some (s', h) →
                             startID s' = startID s) as Hsid.
    { induction fuel as [|fuel IH]; intros s o s' h H;
        destruct o as [f|]; simpl in H; simplify_eq; try done;
        destruct (strict_eq (f_tagName f) (c_tagName c)); simpl in H;
        simplify_eq; try done.
      destruct (_closeElem s (frame_obj f)) as [s1|] eqn:Hc; [simpl in H|done].
      apply IH in H. simpl in H. rewrite H. unfold _closeElem in Hc.
      destruct (processChildren (frame_obj f)) as [o|]; [simpl in Hc|done].
      destruct (stack s); [|by injection Hc as <-].
      destruct (processObject o); [|done]. by injection Hc as <-. }
    by rewrite (Hsid _ _ _ _ _ Hu). }
  split; [exact Hlen|].
  intros _. split.
  - intros above m below Hsplit Habove Hm.
    assert (∃ m', nest_all (above ++ [m]) = Some m'
              ∧ unwind (S (length rest)) entered (Some top) (c_tagName c)
                = Some (set_stack entered below, Some m')) as (m' & Hn & Hu).
    { destruct above as [|a above].
      - simpl in Hsplit. rewrite Hs in Hsplit. injection Hsplit as -> ->.
        exists m. split; [reflexivity|]. cbn [unwind]. rewrite Hm.
        cbn [negb]. reflexivity.
      - simpl in Hsplit. rewrite Hs in Hsplit. injection Hsplit as -> ->.
        apply Forall_app in Hrest as [Ha _].
        destruct (unwind_match (c_tagName c) above (S (length (above ++ m :: below)))
                    entered a m below) as (m' & Hn & Hu); try done.
        { rewrite length_app. simpl. lia. }
        exists m'. split; [exact Hn|exact Hu]. }
    exists m'. split; [exact Hn|]. split; [exact Hu|].
    rewrite Hu in Hst'. injection Hst' as <-. cbn [stack set_stack result].
    split; [apply same_frames_refl|]. exists []. by rewrite app_nil_r.
  - intros Hno. rewrite Hs in Hno.
    destruct (unwind_nomatch (c_tagName c) rest (S (length rest)) entered top)
      as (whole & v & Hn & Hv & Hu); try done; [simpl; lia|].
    exists whole, v. rewrite Hs. split; [exact Hn|]. split; [exact Hv|].
    rewrite Hu in Hst'. injection Hst' as <-. split; reflexivity.
Qed.

Lemma closeElement_mismatch_unwinds_witness :
  ∃ st',
    closeElement
      (mkState "" [] [Elem "0.0" (VStr "br") [] []; Elem "0" (VStr "div") [] [];
                      Block types.SECTION "" (VStr "items") []] [])
      (mkClosing (VStr "0") (VStr "div")) = Some st'
    ∧ log st' = ["div tags improperly paired, closing 0.0 with close tag from 0"]
    ∧ nest_all [Elem "0.0" (VStr "br") [] []; Elem "0" (VStr "div") [] []]
      = Some (Elem "0" (VStr "div")
                [VObj [("children", VArr []); ("type", VNum 7);
                       ("id", VStr "0.0"); ("tagName", VStr "br");
                       ("attributes", VArr []); ("isOpen", VBool true)]] [])
    ∧ same_frames [Block types.SECTION "" (VStr "items") []] (stack st').
Proof.
  destruct (closeElement_mismatch_unwinds
              (mkState "" [] [Elem "0.0" (VStr "br") [] []; Elem "0" (VStr "div") [] [];
                              Block types.SECTION "" (VStr "items") []] [])
              (mkClosing (VStr "0") (VStr "div")))
    as (st' & H1 & H2).
  - repeat constructor.
  - destruct (H2 (Elem "0.0" (VStr "br") [] [])
                [Elem "0" (VStr "div") [] []; Block types.SECTION "" (VStr "items") []]
                eq_refl eq_refl) as ((msg & Hlog & Hmsg) & _ & _ & Hprim).
    destruct (Hprim eq_refl) as [Hmatch _].
    destruct (Hmatch [Elem "0.0" (VStr "br") [] []] (Elem "0" (VStr "div") [] [])
                [Block types.SECTION "" (VStr "items") []] eq_refl
                ltac:(repeat constructor) eq_refl)
      as (m' & Hn & _ & Hsame & _).
    exists st'. split; [exact H1|]. split.
    + rewrite Hlog, (Hmsg eq_refl eq_refl). reflexivity.
    + split; [reflexivity|exact Hsame].
Defined.

(** When no frame has the tag name of the request, every frame is
    finalized into the one below it and the bottom one into the result. *)
Example closeElement_unwinds_into_result :
  closeElement
    (mkState "" [] [Elem "0.0" (VStr "br") [] []; Block types.SECTION "0" (VStr "items") []] [])
    (mkClosing (VStr "zz") (VStr "span"))
  = Some (mkState ""
            [VObj [("type", VNum 4); ("value", VStr "items");
                   ("children",
                    VArr [VObj [("type", VNum 7); ("tagName", VStr "br");
                                ("attributes", VArr [])]])]]
            []
            ["span tags improperly paired, closing 0.0 with close tag from zz"]).
Proof. reflexivity. Qed.

(** C2, as the specification states it, fails: after the unwinding the
    stack is neither empty nor topped by a frame with the tag name of the
    request.  The frame tagged [b] is found second from the top and is
    popped; the frame tagged [a] below it is what is left. *)
Lemma closeElement_leaves_no_match_on_top :
  ∃ st',
    closeElement
      (mkState "" [] [Elem "0.0.0" (VStr "c") [] []; Elem "0.0" (VStr "b") [] [];
                      Elem "0" (VStr "a") [] []] [])
      (mkClosing (VStr "zz") (VStr "b")) = Some st'
    ∧ stack st' = [Elem "0" (VStr "a") [] []]
    ∧ ¬ (stack st' = []
         ∨ ∃ top, peek st' = Some top
                  ∧ strict_eq (f_tagName top) (VStr "b") = true).
Proof.
  eexists. split; [vm_compute; reflexivity|]. split; [reflexivity|].
  intros [H|(top & Hp & Ht)]; [discriminate|].
  injection Hp as <-. discriminate.
Qed.

(** C3 (the code at the failing input).  A stray close tagged [p] on an
    empty stack logs nothing and appends one entry to the result, but the
    entry is the empty object: [openElement('p', {})] makes a frame of
    type ['p'] without a tag name, which [processObject] maps to [{}]. *)
Theorem closeElement_stray_p_appends_empty_object sid res lg id :
  closeElement (mkState sid res [] lg) (mkClosing id (VStr "p"))
  = Some (mkState sid (res ++ [VObj []]) [] lg)
  ∧ fst (openElement (mkState sid res [] lg) (VStr "p") (VObj []))
    = mkState sid res [Block (VStr "p") (sid +:+ pretty (length res)) (VObj []) []] lg
  ∧ processObject
      (frame_obj (Block (VStr "p") (sid +:+ pretty (length res)) (VObj []) []))
    = Some (VObj [])
  ∧ field "tagName" (VObj []) = VUndef.
Proof.
  split; [|repeat split].
  unfold closeElement, closeElement_body, peek. simpl.
  rewrite String.eqb_refl. reflexivity.
Qed.

(** ** [processObject] *)

(** C7 (amended).  For an Element, Section, SectionUnless or Partial
    frame the normalized node has no [children] key when the frame has no
    children and has the frame's children, as they are, when it has some;
    its [children] is never an empty array.  An Element's [attributes] are
    copied as they are, empty or not. *)
Theorem processObject_omits_empty_children f :
  f_type f = types.ELEMENT ∨ f_type f = types.SECTION
  ∨ f_type f = types.SECTION_UNLESS ∨ f_type f = types.PARTIAL →
  ∃ node, processObject (frame_obj f) = Some (VObj node)
    ∧ assoc "type" node = Some (f_type f)
    ∧ (f_children f = [] → assoc "children" node = None)
    ∧ (f_children f ≠ [] → assoc "children" node = Some (VArr (f_children f)))
    ∧ assoc "children" node ≠ Some (VArr [])
    ∧ (∀ id tag attrs ch, f = Elem id tag attrs ch →
         assoc "tagName" node = Some tag
         ∧ assoc "attributes" node = Some (VArr attrs))
    ∧ (∀ ty id v ch, f = Block ty id v ch → ty ≠ types.ELEMENT →
         assoc "value" node = Some v).
Proof.
  intros Hty.
  destruct f as [id tag attrs ch|ty id v ch]; simpl in Hty.
  - destruct ch as [|x xs]; eexists; (split; [reflexivity|]);
      repeat split; try done; intros; simplify_eq; done.
  - destruct Hty as [-> | [-> | [-> | ->]]];
      (destruct ch as [|x xs]; eexists; (split; [reflexivity|]);
       repeat split; try done; intros; simplify_eq; done).
Qed.

Lemma processObject_omits_empty_children_witness :
  ∃ node,
    processObject (frame_obj (Block types.SECTION "0" (VStr "items") [])) = Some (VObj node)
    ∧ assoc "children" node = None.
Proof.
  destruct (processObject_omits_empty_children
              (Block types.SECTION "0" (VStr "items") []))
    as (node & H1 & _ & H2 & _).
  - right. left. reflexivity.
  - exists node. split; [exact H1|]. apply H2. reflexivity.
Defined.

(** C7, as the specification states it, fails: the node of an element
    frame that has no attributes carries an empty [attributes] array. *)
Lemma processObject_emits_empty_attributes :
  ∃ node,
    processObject (frame_obj (Elem "0" (VStr "div") [] [])) = Some (VObj node)
    ∧ assoc "attributes" node = Some (VArr []).
Proof. eexists. split; reflexivity. Qed.

(** ** The text-merge invariant *)











(** ** The same at every depth *)





















(** Two strings that meet become one entry. *)
Lemma push_concatenates l s t :
  last l = Some (VStr t) →
  push l (VStr s) = removelast l ++ [VStr (t +:+ s)]
  ∧ length (push l (VStr s)) = length l.
Proof.
  intros Hl. unfold push. rewrite Hl. split; [done|].
  apply last_Some in Hl as [l' ->].
  rewrite removelast_last, !length_app. reflexivity.
Qed.



(** ** [createObject] *)

(** C9.  An object whose [type] is ['Widget'] is resolved with its [id]
    set to the address [getID()] had before the call; an object of any
    other type is resolved as it is.  Under an open frame the entry that
    reaches the frame's array shows it: its [id] is that address in the
    first case and the object's own [id] in the second. *)
Theorem createObject_assigns_widget_address st ps :
  (field "type" (VObj ps) = VStr "Widget" →
     createObject st (VObj ps)
     = _closeElem st (VObj (assign ps "id" (VStr (getID st)))))
  ∧ (field "type" (VObj ps) ≠ VStr "Widget" →
     createObject st (VObj ps) = _closeElem st (VObj ps))
  ∧ (∀ top rest st',
       stack st = top :: rest → createObject st (VObj ps) = Some st' →
       ∃ top' entry,
         stack st' = top' :: rest
         ∧ last (pushingTo top') = Some entry
         ∧ field "type" entry = field "type" (VObj ps)
         ∧ field "id" entry
           = if strict_eq (field "type" (VObj ps)) (VStr "Widget")
             then VStr (getID st) else field "id" (VObj ps)).
Proof.
  assert (Hw : field "type" (VObj ps) = VStr "Widget" →
               createObject st (VObj ps)
               = _closeElem st (VObj (assign ps "id" (VStr (getID st))))).
  { intros H. unfold createObject. rewrite H. reflexivity. }
  assert (Hn : field "type" (VObj ps) ≠ VStr "Widget" →
               createObject st (VObj ps) = _closeElem st (VObj ps)).
  { intros H. unfold createObject.
    destruct (strict_eq (field "type" (VObj ps)) (VStr "Widget")) eqn:E;
      [by apply strict_eq_str in E|reflexivity]. }
  split; [exact Hw|]. split; [exact Hn|].
  intros top rest st' Hs H.
  destruct (strict_eq (field "type" (VObj ps)) (VStr "Widget")) eqn:E.
  - apply strict_eq_str in E. rewrite (Hw E) in H.
    unfold _closeElem in H.
    destruct (processChildren (VObj (assign ps "id" (VStr (getID st)))))
      as [o|] eqn:Hc; [simpl in H|done].
    rewrite Hs in H. injection H as <-.
    exists (push_into top o), o. split; [done|].
    pose proof (processChildren_field _ o "id" Hc ltac:(done)) as Hid.
    pose proof (processChildren_field _ o "type" Hc ltac:(done)) as Hty.
    split; [|split].
    + apply processChildren_obj in Hc as [ps' ->].
      by destruct top; simpl; rewrite last_snoc.
    + rewrite Hty. unfold field. by rewrite assoc_assign_ne.
    + rewrite Hid. unfold field. by rewrite assoc_assign_eq.
  - assert (field "type" (VObj ps) ≠ VStr "Widget") as Hne.
    { intros Heq. apply strict_eq_str in Heq. congruence. }
    rewrite (Hn Hne) in H. unfold _closeElem in H.
    destruct (processChildren (VObj ps)) as [o|] eqn:Hc; [simpl in H|done].
    rewrite Hs in H. injection H as <-.
    exists (push_into top o), o. split; [done|].
    pose proof (processChildren_field _ o "id" Hc ltac:(done)) as Hid.
    pose proof (processChildren_field _ o "type" Hc ltac:(done)) as Hty.
    split; [|split; [exact Hty|exact Hid]].
    apply processChildren_obj in Hc as [ps' ->].
    by destruct top; simpl; rewrite last_snoc.
Qed.

Lemma createObject_assigns_widget_address_witness :
  ∃ st',
    createObject
      (mkState "" [] [Block types.SECTION "0" (VStr "items") [VStr "a"; VStr "b"]] [])
      (VObj [("type", VStr "Widget")]) = Some st'
    ∧ stack st' = [Block types.SECTION "0" (VStr "items")
                     [VStr "a"; VStr "b";
                      VObj [("type", VStr "Widget"); ("id", VStr "0.2")]]].
Proof.
  eexists. split.
  - rewrite (proj1 (createObject_assigns_widget_address
                      (mkState "" [] [Block types.SECTION "0" (VStr "items")
                                        [VStr "a"; VStr "b"]] [])
                      [("type", VStr "Widget")]) eq_refl).
    vm_compute. reflexivity.
  - reflexivity.
Defined.

End StackFacts.

(* ================================================================== *)
(** * Part IV: properties of the template facade *)
(* ================================================================== *)

Module TemplateFacts.
Import Template.

(** ** [toString] *)

Section toString_facts.

Variable registeredPartials : val.
Variable output : Type.
Variable interpret : builder → list cell → val → val → val → val → output.

(** What [toString] hands to the adaptor once the template is chosen. *)
Lemma toString_render s this data g template ps :
  prop (heap s) this "templateObj" = Ok g →
  templateToRender s this = Ok template →
  prop (heap s) this "partials" = Ok ps →
  toString registeredPartials output interpret s this data
  = Ok (interpret ToHtmlString (heap s) (if truthy template then template else g)
          data (if truthy ps then ps else registeredPartials) VNull).
Proof.
  intros Hg Ht Hps. unfold toString, _render. rewrite Ht. simpl.
  rewrite Hps. simpl. destruct (truthy template); [done|].
  rewrite Hg. reflexivity.
Qed.

End toString_facts.

(** C6 (amended).  [toString] renders the whole bound graph, unless the
    Template is bound to a top-level view (a view without a parent view):
    then it renders the children [f] of the graph, and the whole graph
    again when the graph has no children. *)
Theorem toString_renders_children_for_top_level_view
    (registeredPartials : val) (output : Type)
    (interpret : builder → list cell → val → val → val → val → output)
    s this data g v ps :
  prop (heap s) this "templateObj" = Ok g →
  prop (heap s) this "view" = Ok v →
  prop (heap s) this "partials" = Ok ps →
  let render template :=
    Ok (interpret ToHtmlString (heap s) template data
          (if truthy ps then ps else registeredPartials) VNull) in
  (truthy v = false →
     toString registeredPartials output interpret s this data = render g)
  ∧ (∀ parentView,
       truthy v = true → prop (heap s) v "parentView" = Ok parentView →
       truthy parentView = true →
       toString registeredPartials output interpret s this data = render g)
  ∧ (∀ parentView f,
       truthy v = true → prop (heap s) v "parentView" = Ok parentView →
       truthy parentView = false → prop (heap s) g "f" = Ok f →
       toString registeredPartials output interpret s this data
       = render (if truthy f then f else g)).
Proof.
  intros Hg Hv Hps render. subst render. cbv beta.
  split; [|split].
  - intros Hf.
    rewrite (toString_render _ _ _ s this data g g ps Hg); try done.
    + by destruct (truthy g).
    + unfold templateToRender. rewrite Hg, Hv. simpl. by rewrite Hf.
  - intros pv Ht Hpv Hp.
    rewrite (toString_render _ _ _ s this data g g ps Hg); try done.
    + by destruct (truthy g).
    + unfold templateToRender. rewrite Hg, Hv. simpl. rewrite Ht, Hpv. simpl.
      by rewrite Hp.
  - intros pv f Ht Hpv Hp Hf.
    rewrite (toString_render _ _ _ s this data g f ps Hg); try done.
    unfold templateToRender. rewrite Hg, Hv. simpl. rewrite Ht, Hpv. simpl.
    by rewrite Hp.
Qed.

Lemma toString_renders_children_for_top_level_view_witness :
  toString VNull val handed_template views_store (VRef 4) VNull = Ok (VRef 1)
  ∧ toString VNull val handed_template views_store (VRef 5) VNull = Ok (VRef 0).
Proof.
  split.
  - apply (proj2 (proj2 (toString_renders_children_for_top_level_view
                           VNull val handed_template views_store (VRef 4) VNull
                           (VRef 0) (VRef 2) VUndef eq_refl eq_refl eq_refl))
             VUndef (VRef 1)); reflexivity.
  - apply (proj1 (proj2 (toString_renders_children_for_top_level_view
                           VNull val handed_template views_store (VRef 5) VNull
                           (VRef 0) (VRef 3) VUndef eq_refl eq_refl eq_refl))
             (VRef 2)); reflexivity.
Defined.

(** C6, as the specification states it, fails both ways: a Template bound
    to a view that has a parent view renders the whole graph, wrapper
    included, and a Template bound to a top-level view renders the
    children only. *)
Lemma toString_nested_view_renders_wrapper :
  prop (heap views_store) (VRef 3) "parentView" = Ok (VRef 2)
  ∧ toString VNull val handed_template views_store (VRef 5) VNull = Ok (VRef 0)
  ∧ prop (heap views_store) (VRef 0) "f" = Ok (VRef 1)
  ∧ toString VNull val handed_template views_store (VRef 5) VNull ≠ Ok (VRef 1)
  ∧ prop (heap views_store) (VRef 2) "parentView" = Ok VUndef
  ∧ toString VNull val handed_template views_store (VRef 4) VNull = Ok (VRef 1).
Proof. repeat split; try reflexivity. discriminate. Qed.

(** ** Stores *)

Lemma bind_Ok {A B} (m : outcome A) (f : A → outcome B) b :
  m ≫= f = Ok b → ∃ a, m = Ok a ∧ f a = Ok b.
Proof. destruct m; simpl; intros H; try discriminate. eauto. Qed.

Lemma get_update_eq ps k v x :
  get k ps = Some x → get k (update ps k v) = Some v.
Proof.
  induction ps as [|[k' v'] ps IH]; simpl; [done|].
  destruct (String.eqb k k') eqn:E; simpl; rewrite E; [done|exact IH].
Qed.

Lemma get_update_ne ps k k' v : k ≠ k' → get k' (update ps k v) = get k' ps.
Proof.
  intros Hne. induction ps as [|[k0 v0] ps IH]; simpl; [done|].
  destruct (String.eqb k k0) eqn:E; simpl.
  - apply String.eqb_eq in E. subst k0.
    destruct (String.eqb k' k) eqn:E'; [|done].
    apply String.eqb_eq in E'. congruence.
  - by rewrite IH.
Qed.

Lemma get_place_eq ps k v : get k ps = None → get k (place ps k v) = Some v.
Proof.
  induction ps as [|[k' v'] ps IH]; simpl.
  - by rewrite String.eqb_refl.
  - destruct (String.eqb k k') eqn:E; [done|]. intros Hn.
    destruct (before k k'); simpl.
    + by rewrite String.eqb_refl.
    + rewrite E. by apply IH.
Qed.

Lemma get_place_ne ps k k' v : k ≠ k' → get k' (place ps k v) = get k' ps.
Proof.
  intros Hne.
  assert (String.eqb k' k = false) as Hkk.
  { apply String.eqb_neq. congruence. }
  induction ps as [|[k0 v0] ps IH]; simpl.
  - by rewrite Hkk.
  - destruct (before k k0); simpl; [by rewrite Hkk|]. by rewrite IH.
Qed.

Lemma get_set_eq ps k v : get k (set ps k v) = Some v.
Proof.
  unfold set. destruct (get k ps) as [x|] eqn:E.
  - by eapply get_update_eq.
  - by apply get_place_eq.
Qed.

Lemma get_set_ne ps k k' v : k ≠ k' → get k' (set ps k v) = get k' ps.
Proof.
  intros Hne. unfold set. destruct (get k ps).
  - by apply get_update_ne.
  - by apply get_place_ne.
Qed.



Lemma prop_obj h l ps k :
  h !! l = Some (Obj ps) → inherited k = false →
  prop h (VRef l) k = Ok (default VUndef (get k ps)).
Proof. intros H Hk. unfold prop. rewrite H, Hk. by destruct (get k ps). Qed.

Lemma prop_own h l ps k x :
  h !! l = Some (Obj ps) → get k ps = Some x → prop h (VRef l) k = Ok x.
Proof. intros H Hk. unfold prop. by rewrite H, Hk. Qed.

(** C10.  [toString] returns for every Template whose view is absent or
    an object (and whose graph is an object when that view has no parent
    view), and what it returns is what the adaptor makes of the chosen
    template, the data and the partials with [null] for the view: an
    adaptor that answers with the view it is handed answers [null].  The
    view bears on the output through the choice of the template alone:
    another Template over the same graph with the same partials, bound to
    any view for which the same template is chosen, renders the same. *)
Theorem toString_renders_without_view
    (registeredPartials : val) (output : Type)
    (interpret : builder → list cell → val → val → val → val → output)
    s lthis thps data :
  heap s !! lthis = Some (Obj thps) →
  let this := VRef lthis in
  let g := default VUndef (get "templateObj" thps) in
  let v := default VUndef (get "view" thps) in
  let partials :=
    if truthy (default VUndef (get "partials" thps))
    then default VUndef (get "partials" thps) else registeredPartials in
  (truthy v = false → templateToRender s this = Ok g)
  ∧ (∀ lv vps,
       v = VRef lv → heap s !! lv = Some (Obj vps) →
       truthy (default VUndef (get "parentView" vps)) = true →
       templateToRender s this = Ok g)
  ∧ (∀ lv vps lg gps,
       v = VRef lv → heap s !! lv = Some (Obj vps) →
       truthy (default VUndef (get "parentView" vps)) = false →
       g = VRef lg → heap s !! lg = Some (Obj gps) →
       templateToRender s this = Ok (default VUndef (get "f" gps)))
  ∧ (∀ template,
       templateToRender s this = Ok template →
       let chosen := if truthy template then template else g in
       toString registeredPartials output interpret s this data
       = Ok (interpret ToHtmlString (heap s) chosen data partials VNull)
       ∧ toString registeredPartials val handed_view s this data = Ok VNull
       ∧ ∀ lthis' thps',
           heap s !! lthis' = Some (Obj thps') →
           get "templateObj" thps' = get "templateObj" thps →
           get "partials" thps' = get "partials" thps →
           templateToRender s (VRef lthis') = Ok template →
           toString registeredPartials output interpret s (VRef lthis') data
           = Ok (interpret ToHtmlString (heap s) chosen data partials VNull)).
Proof.
  intros Hthis this g v partials.
  assert (Hg : prop (heap s) this "templateObj" = Ok g)
    by apply (prop_obj _ _ _ "templateObj" Hthis eq_refl).
  assert (Hv : prop (heap s) this "view" = Ok v)
    by apply (prop_obj _ _ _ "view" Hthis eq_refl).
  split; [|split; [|split]].
  - intros Hf. unfold templateToRender. rewrite Hg, Hv.
    cbn [mbind outcome_bind]. by rewrite Hf.
  - intros lv vps Hlv Hvps Hpv. unfold templateToRender. rewrite Hg, Hv.
    cbn [mbind outcome_bind]. rewrite Hlv. cbn [truthy].
    rewrite (prop_obj _ _ _ "parentView" Hvps eq_refl).
    cbn [mbind outcome_bind]. by rewrite Hpv.
  - intros lv vps lg gps Hlv Hvps Hpv Hlg Hgps.
    unfold templateToRender. rewrite Hg, Hv.
    cbn [mbind outcome_bind]. rewrite Hlv. cbn [truthy].
    rewrite (prop_obj _ _ _ "parentView" Hvps eq_refl).
    cbn [mbind outcome_bind]. rewrite Hpv. cbn [negb]. rewrite Hlg.
    apply (prop_obj _ _ _ "f" Hgps eq_refl).
  - intros template Ht chosen.
    assert (Hps : prop (heap s) this "partials"
                  = Ok (default VUndef (get "partials" thps)))
      by apply (prop_obj _ _ _ "partials" Hthis eq_refl).
    split; [by apply toString_render|].
    split.
    { rewrite (toString_render _ _ handed_view s this data g template _
                 Hg Ht Hps). reflexivity. }
    intros lthis' thps' Hthis' Hsame_g Hsame_ps Ht'.
    rewrite (toString_render _ _ interpret s (VRef lthis') data g template
               (default VUndef (get "partials" thps))); [done| |done|].
    + rewrite (prop_obj _ _ _ "templateObj" Hthis' eq_refl). subst g.
      by rewrite Hsame_g.
    + rewrite (prop_obj _ _ _ "partials" Hthis' eq_refl).
      by rewrite Hsame_ps.
Qed.

Lemma toString_renders_without_view_witness :
  toString VNull val handed_view bound_store (VRef 5) VNull = Ok VNull
  ∧ toString VNull val handed_template bound_store (VRef 5) VNull = Ok (VRef 0)
  ∧ toString VNull val handed_template bound_store (VRef 6) VNull = Ok (VRef 0).
Proof.
  destruct (toString_renders_without_view VNull val handed_template
              bound_store 5
              [("templateObj", VRef 0); ("partials", VUndef); ("view", VRef 3)]
              VNull eq_refl) as (_ & Hnested & _ & Hrender).
  destruct (Hrender (VRef 0)
              (Hnested 3 [("parentView", VRef 2)] eq_refl eq_refl eq_refl))
    as (Hout & Hnull & Hother).
  split; [exact Hnull|]. split; [exact Hout|].
  exact (Hother 6
           [("templateObj", VRef 0); ("partials", VUndef); ("view", VUndef)]
           eq_refl eq_refl eq_refl eq_refl).
Defined.

Lemma cell_kept_refl c : cell_kept c c.
Proof. destruct c; simpl; done. Qed.

Lemma cell_kept_trans c1 c2 c3 :
  cell_kept c1 c2 → cell_kept c2 c3 → cell_kept c1 c3.
Proof.
  destruct c1, c2, c3; simpl; try done.
  - congruence.
  - intros H1 H2 k Hk. rewrite H2, H1; done.
Qed.

Lemma kept_refl h : kept h h.
Proof. intros l c Hl. exists c. split; [done|apply cell_kept_refl]. Qed.

Lemma kept_trans h1 h2 h3 : kept h1 h2 → kept h2 h3 → kept h1 h3.
Proof.
  intros H12 H23 l c Hl.
  destruct (H12 l c Hl) as (c2 & Hl2 & Hc2).
  destruct (H23 l c2 Hl2) as (c3 & Hl3 & Hc3).
  exists c3. split; [done|]. eapply cell_kept_trans; eauto.
Qed.

Lemma kept_alloc s c : kept (heap s) (heap (alloc s c).1).
Proof.
  intros l c0 Hl. exists c0. split; [|apply cell_kept_refl].
  simpl. by apply lookup_app_l_Some.
Qed.

Lemma kept_insert h l c c' :
  h !! l = Some c → cell_kept c c' → kept h (<[l := c']> h).
Proof.
  intros Hl Hc l0 c0 Hl0. destruct (decide (l0 = l)) as [->|Hne].
  - exists c'. rewrite list_lookup_insert_eq; [|by eapply lookup_lt_Some].
    split; [done|]. congruence.
  - exists c0. rewrite list_lookup_insert_ne; [|done].
    split; [done|apply cell_kept_refl].
Qed.

Lemma kept_store_index s arr i v :
  kept (heap s) (heap (store_index s arr i v)).
Proof.
  unfold store_index. destruct (heap s !! arr) as [[xs|ps]|] eqn:E;
    try apply kept_refl.
  simpl. eapply kept_insert; [done|]. simpl. apply length_insert.
Qed.

Lemma kept_store_f s o v : kept (heap s) (heap (store_prop s o "f" v)).
Proof.
  unfold store_prop. destruct (heap s !! o) as [[xs|ps]|] eqn:E;
    try apply kept_refl.
  simpl. eapply kept_insert; [done|]. simpl.
  intros k Hk. by apply get_set_ne.
Qed.

Lemma clone_kept s v s' r : clone s v = Ok (s', r) → kept (heap s) (heap s').
Proof.
  unfold clone. intros H.
  destruct v; simplify_eq; try apply kept_refl.
  destruct (heap s !! l) eqn:E; simplify_eq. apply (kept_alloc s c).
Qed.

(** ** What [attachViews] keeps *)

Section kept_by_body.

Variable registeredPartials : val.
Variable PARTIAL : Z.
Variable getInterpolatorKey : list cell → val → string.
Variable view widgetWrapper : val.
Variable rec : store → val → val → option classes → outcome (store * val).
Variable budget : nat.

Hypothesis rec_kept : ∀ s t p cc s' r,
  rec s t p cc = Ok (s', r) → kept (heap s) (heap s').

Lemma attach_members_kept : ∀ n i s template partials cc s',
  attach_members rec n i s template partials cc = Ok s' →
  kept (heap s) (heap s').
Proof.
  induction n as [|n IH]; intros i s template partials cc s' H; simpl in H;
    destruct (heap s !! template) as [[xs|ps]|]; try discriminate;
    destruct (xs !! i) as [x|]; simplify_eq; try apply kept_refl.
  apply bind_Ok in H as ([s1 r] & Hr & H).
  eapply kept_trans; [by eapply rec_kept|].
  eapply kept_trans; [apply (kept_store_index s1 template i r)|].
  by eapply IH.
Qed.

Lemma attach_children_kept : ∀ n i s template partials cc s',
  attach_children rec n i s template partials cc = Ok s' →
  kept (heap s) (heap s').
Proof.
  induction n as [|n IH]; intros i s template partials cc s' H; simpl in H;
    apply bind_Ok in H as (f & Hf & H);
    destruct f as [| | | | |lf]; try discriminate;
    destruct (heap s !! lf) as [[xs|ps]|]; try discriminate;
    destruct (xs !! i) as [x|]; simplify_eq; try apply kept_refl.
  apply bind_Ok in H as ([s1 r] & Hr & H).
  eapply kept_trans; [by eapply rec_kept|].
  eapply kept_trans; [apply (kept_store_index s1 lf i r)|].
  by eapply IH.
Qed.

Lemma flatten_children_kept s template s' :
  flatten_children s template = Ok s' → kept (heap s) (heap s').
Proof.
  unfold flatten_children. intros H. apply bind_Ok in H as (f & Hf & H).
  destruct f as [| | | | |lf]; try discriminate.
  destruct template as [| | | | |lt]; try discriminate.
  destruct (heap s !! lf) as [[xs|ps]|]; try discriminate.
  simpl in H. injection H as <-.
  eapply kept_trans; [apply (kept_alloc s (Arr (flatten (heap s) xs)))|].
  apply kept_store_f.
Qed.

Lemma attach_widget_kept s template partials cc s' template' cc' :
  attach_widget view widgetWrapper s template partials cc
  = Ok (s', template', cc') →
  kept (heap s) (heap s').
Proof.
  unfold attach_widget. intros H.
  apply bind_Ok in H as (root & _ & H).
  destruct (truthy root); [simplify_eq; apply kept_refl|].
  apply bind_Ok in H as (childViews & _ & H).
  destruct (negb (truthy childViews)); [simplify_eq; apply kept_refl|].
  apply bind_Ok in H as (cc0 & _ & H).
  apply bind_Ok in H as (a & _ & H).
  destruct (negb (truthy a)); [simplify_eq; apply kept_refl|].
  apply bind_Ok in H as (cn & _ & H).
  destruct (negb (truthy cn)); [simplify_eq; apply kept_refl|].
  apply bind_Ok in H as (className & _ & H).
  destruct (find_class className (padded cc0) (len cc0));
    [|simplify_eq; apply kept_refl].
  apply bind_Ok in H as (childView & _ & H).
  simpl in H. injection H as <- <- <-. simpl.
  intros l c Hl. exists c. split; [|apply cell_kept_refl].
  rewrite <- (assoc_L (++)). by apply lookup_app_l_Some.
Qed.

Lemma attach_partial_kept s template partials cc s' r :
  attach_partial registeredPartials PARTIAL getInterpolatorKey rec
    s template partials cc = Ok (s', r) →
  kept (heap s) (heap s').
Proof.
  unfold attach_partial. intros H.
  apply bind_Ok in H as (t & _ & H).
  destruct (strict_eq t (VNum PARTIAL)); [|simplify_eq; apply kept_refl].
  apply bind_Ok in H as (found & _ & H).
  destruct (negb (truthy found)); [simplify_eq; apply kept_refl|].
  apply bind_Ok in H as (templateObj & _ & H).
  apply bind_Ok in H as ([s1 copy] & Hc & H).
  apply bind_Ok in H as (own & _ & H).
  eapply kept_trans; [by eapply clone_kept|]. by eapply rec_kept.
Qed.

Lemma attachViews_body_kept s template partials cc s' r :
  attachViews_body registeredPartials PARTIAL getInterpolatorKey
    view widgetWrapper rec budget s template partials cc = Ok (s', r) →
  kept (heap s) (heap s').
Proof.
  unfold attachViews_body. intros H.
  destruct (isArray (heap s) template) eqn:Harr.
  - destruct template as [| | | | |l]; simplify_eq; try apply kept_refl.
    apply bind_Ok in H as (s1 & Hm & H). injection H as <- <-.
    by eapply attach_members_kept.
  - assert (Hbody :
      attach_widget view widgetWrapper s template partials cc
      ≫= (λ '(s0, template0, childClasses),
           prop (heap s0) template0 "f"
           ≫= λ f,
                (if truthy f
                 then attach_children rec budget 0 s0 template0 partials childClasses
                      ≫= λ s1, flatten_children s1 template0
                 else Ok s0)
                ≫= λ s1,
                     attach_partial registeredPartials PARTIAL getInterpolatorKey
                       rec s1 template0 partials childClasses) = Ok (s', r)
      ∨ (s', r) = (s, template)).
    { destruct template; try (by left); right; congruence. }
    clear H. destruct Hbody as [H|H]; [|injection H as -> ->; apply kept_refl].
    apply bind_Ok in H as ([[s0 template0] cc0] & Hw & H).
    apply bind_Ok in H as (f & _ & H).
    apply bind_Ok in H as (s1 & Hf & H).
    eapply kept_trans; [by eapply attach_widget_kept|].
    eapply kept_trans; [|by eapply attach_partial_kept].
    destruct (truthy f); [|simplify_eq; apply kept_refl].
    apply bind_Ok in Hf as (s2 & Hc & Hf).
    eapply kept_trans; [by eapply attach_children_kept|].
    by eapply flatten_children_kept.
Qed.

End kept_by_body.

Lemma attachViews_kept registeredPartials PARTIAL getInterpolatorKey
    view widgetWrapper :
  ∀ fuel s template partials cc s' r,
    attachViews registeredPartials PARTIAL getInterpolatorKey fuel
      s view template widgetWrapper partials cc = Ok (s', r) →
    kept (heap s) (heap s').
Proof.
  induction fuel as [|fuel IH]; intros s template partials cc s' r H.
  { simpl in H. discriminate H. }
  simpl in H. eapply attachViews_body_kept in H; [exact H|].
  intros s0 t p cc0 s0' r0 Hr. by eapply IH.
Qed.




(** ** Partials *)

Lemma attach_widget_cases view widgetWrapper s template partials cc s0 w cc0 :
  attach_widget view widgetWrapper s template partials cc = Ok (s0, w, cc0) →
  (s0 = s ∧ w = template)
  ∨ ∃ childView,
      s0 = mkStore
             (heap s ++
              [Obj [("templateObj", template); ("partials", partials);
                    ("view", VUndef)];
               Obj [("type", VStr "Widget"); ("constructor", widgetWrapper);
                    ("childView", childView);
                    ("template", VRef (length (heap s)))]])
             (log s)
      ∧ w = VRef (S (length (heap s))).
Proof.
  unfold attach_widget. intros H.
  apply bind_Ok in H as (root & _ & H).
  destruct (truthy root); [simplify_eq; by left|].
  apply bind_Ok in H as (childViews & _ & H).
  destruct (negb (truthy childViews)); [simplify_eq; by left|].
  apply bind_Ok in H as (c & _ & H).
  apply bind_Ok in H as (a & _ & H).
  destruct (negb (truthy a)); [simplify_eq; by left|].
  apply bind_Ok in H as (cn & _ & H).
  destruct (negb (truthy cn)); [simplify_eq; by left|].
  apply bind_Ok in H as (className & _ & H).
  destruct (find_class className (padded c) (len c));
    [|simplify_eq; by left].
  apply bind_Ok in H as (childView & _ & H).
  right. exists childView. unfold alloc in H. cbn [heap log] in H.
  injection H as <- <- <-.
  rewrite <- (assoc_L (++)), length_app. cbn [length app].
  by rewrite Nat.add_1_r.
Qed.

(** C4 (amended).  Every Partial node that the pass reaches: when the
    Widget step replaces the node, the Widget is returned and the name is
    not resolved at all.  Otherwise, once the children of the node, if it
    has any, are attached, the name is looked up in the partials map the
    call was given, and not in the registry: when the lookup gives a
    falsy value the call logs exactly one diagnostic and returns [null]
    in the node's place, whatever the registry holds; when it gives a
    value, the value is unwrapped to its [templateObj] if it has one,
    copied, and the pass goes on in the copy, with the partials of the
    value found or, when it has none, the registry.  (The lookup is a
    property read: a name that every object inherits is found on any map,
    and is outside of what [prop] answers.) *)
Theorem attachViews_partial_lookup registeredPartials PARTIAL getInterpolatorKey
    fuel s view widgetWrapper partials cc l ps s0 w cc0 :
  heap s !! l = Some (Obj ps) →
  get "t" ps = Some (VNum PARTIAL) →
  attach_widget view widgetWrapper s (VRef l) partials cc = Ok (s0, w, cc0) →
  let rec s t p c :=
    attachViews registeredPartials PARTIAL getInterpolatorKey fuel
      s view t widgetWrapper p c in
  let run :=
    attachViews registeredPartials PARTIAL getInterpolatorKey (S fuel)
      s view (VRef l) widgetWrapper partials cc in
  (w ≠ VRef l → run = Ok (s0, w))
  ∧ (w = VRef l →
     s0 = s
     ∧ ∀ s1,
         (if truthy (default VUndef (get "f" ps))
          then s' ← attach_children rec fuel 0 s (VRef l) partials cc0;
               flatten_children s' (VRef l)
          else Ok s) = Ok s1 →
         ∀ found,
           prop (heap s1) partials (getInterpolatorKey (heap s1) (VRef l))
           = Ok found →
           (truthy found = false →
              run = Ok (mkStore (heap s1)
                          (log s1 ++
                           ["Warning: no partial registered with the name "
                            +:+ getInterpolatorKey (heap s1) (VRef l)]),
                        VNull))
           ∧ (∀ templateObj s2 copy own,
                truthy found = true →
                prop (heap s1) found "templateObj" = Ok templateObj →
                clone s1 (if truthy templateObj then templateObj else found)
                = Ok (s2, copy) →
                prop (heap s2) found "partials" = Ok own →
                run = rec s2 copy
                        (if truthy own then own else registeredPartials) cc0)).
Proof.
  intros Hl Ht Hw rec run.
  assert (Hrun :
    run = (f ← prop (heap s0) w "f";
           s1 ← (if truthy f
                 then s' ← attach_children rec fuel 0 s0 w partials cc0;
                      flatten_children s' w
                 else Ok s0);
           attach_partial registeredPartials PARTIAL getInterpolatorKey rec
             s1 w partials cc0)).
  { subst run. cbn [attachViews]. unfold attachViews_body, isArray.
    rewrite Hl, Hw. reflexivity. }
  split.
  - intros Hne. rewrite Hrun.
    destruct (attach_widget_cases _ _ _ _ _ _ _ _ _ Hw)
      as [[_ ->]|(childView & -> & ->)]; [done|].
    assert (Hwidget :
      (heap s ++
       [Obj [("templateObj", VRef l); ("partials", partials); ("view", VUndef)];
        Obj [("type", VStr "Widget"); ("constructor", widgetWrapper);
             ("childView", childView);
             ("template", VRef (length (heap s)))]]) !! S (length (heap s))
      = Some (Obj [("type", VStr "Widget"); ("constructor", widgetWrapper);
                   ("childView", childView);
                   ("template", VRef (length (heap s)))])).
    { rewrite lookup_app_r; [|lia].
      by replace (S (length (heap s)) - length (heap s)) with 1 by lia. }
    cbn [heap]. rewrite (prop_obj _ _ _ "f" Hwidget eq_refl).
    cbn [mbind outcome_bind get String.eqb Ascii.eqb Bool.eqb default
         from_option truthy].
    unfold attach_partial. cbn [heap].
    rewrite (prop_obj _ _ _ "t" Hwidget eq_refl). reflexivity.
  - intros ->.
    destruct (attach_widget_cases _ _ _ _ _ _ _ _ _ Hw)
      as [[-> _]|(childView & _ & Hw')].
    2:{ injection Hw' as Hw'. apply lookup_lt_Some in Hl. lia. }
    split; [done|]. intros s1 Hch found Hfound.
    assert (Hk : kept (heap s) (heap s1)).
    { destruct (truthy (default VUndef (get "f" ps)));
        [|injection Hch as <-; apply kept_refl].
      apply bind_Ok in Hch as (s' & Hc & Hf).
      eapply kept_trans; [|by eapply flatten_children_kept].
      eapply attach_children_kept; [|exact Hc].
      intros s2 t p c s2' r Hr. subst rec. eapply attachViews_kept. exact Hr. }
    destruct (Hk l _ Hl) as ([xs1|ps1] & Hl1 & Hc1); [done|]. simpl in Hc1.
    assert (Hstep :
      run = attach_partial registeredPartials PARTIAL getInterpolatorKey rec
              s1 (VRef l) partials cc0).
    { rewrite Hrun, (prop_obj _ _ _ "f" Hl eq_refl).
      cbn [mbind outcome_bind]. rewrite Hch. reflexivity. }
    rewrite Hstep. unfold attach_partial.
    rewrite (prop_obj _ _ _ "t" Hl1 eq_refl), (Hc1 "t") by done.
    rewrite Ht. cbn [mbind outcome_bind default from_option id strict_eq].
    rewrite Z.eqb_refl, Hfound. cbn [mbind outcome_bind].
    split.
    + intros ->. reflexivity.
    + intros templateObj s2 copy own -> Hto Hc Hown. cbn [negb].
      rewrite Hto. cbn [mbind outcome_bind]. rewrite Hc.
      cbn [mbind outcome_bind]. rewrite Hown. reflexivity.
Qed.

Lemma attachViews_partial_lookup_witness :
  attachViews (VRef 3) 8 key_r 5 children_store (VRef 5) (VRef 0) VNull (VRef 2) None
  = Ok (mkStore
          [ Obj [("t", VNum 8); ("r", VStr "header"); ("f", VRef 6)];
            Arr [VStr "x"]; Obj []; Obj [("header", VRef 4)];
            Obj [("t", VNum 7); ("e", VStr "h1")]; Obj [];
            Arr [VStr "x"] ]
          ["Warning: no partial registered with the name header"], VNull)
  ∧ attachViews (VRef 1) 8 key_r 5 header_store (VRef 4) (VRef 3) VNull (VRef 1) None
    = attachViews (VRef 1) 8 key_r 4
        (mkStore (heap header_store ++ [Obj [("t", VNum 7); ("e", VStr "h1")]]) [])
        (VRef 4) (VRef 5) VNull (VRef 1) None.
Proof.
  split.
  - apply (proj1 (proj2 (proj2 (attachViews_partial_lookup (VRef 3) 8 key_r 4
                    children_store (VRef 5) VNull (VRef 2) None 0
                    [("t", VNum 8); ("r", VStr "header"); ("f", VRef 1)]
                    children_store (VRef 0) None
                    eq_refl eq_refl eq_refl) eq_refl)
                    (mkStore
                       [ Obj [("t", VNum 8); ("r", VStr "header"); ("f", VRef 6)];
                         Arr [VStr "x"]; Obj []; Obj [("header", VRef 4)];
                         Obj [("t", VNum 7); ("e", VStr "h1")]; Obj [];
                         Arr [VStr "x"] ] [])
                    eq_refl VUndef eq_refl)).
    reflexivity.
  - apply (proj2 (proj2 (proj2 (attachViews_partial_lookup (VRef 1) 8 key_r 4
                    header_store (VRef 4) VNull (VRef 1) None 3
                    [("t", VNum 8); ("r", VStr "header")]
                    header_store (VRef 3) None
                    eq_refl eq_refl eq_refl) eq_refl)
                    header_store eq_refl (VRef 2) eq_refl)
             VUndef _ _ VUndef); reflexivity.
Defined.

(** C4, as the specification states it, fails: the registry has the
    partial [header], the map the call is given does not, and the node is
    not resolved against the registry: one diagnostic, [null]. *)
Lemma attachViews_name_not_looked_up_in_registry :
  prop (heap header_store) (VRef 1) "header" = Ok (VRef 2)
  ∧ prop (heap header_store) (VRef 0) "header" = Ok VUndef
  ∧ attachViews (VRef 1) 8 key_r 5 header_store (VRef 4) (VRef 3) VNull
      (VRef 0) None
    = Ok (mkStore (heap header_store)
            ["Warning: no partial registered with the name header"], VNull).
Proof. repeat split. Qed.

(** ** Selectors *)



Lemma padded_lookup ks i k :
  ks !! i = Some k →
  default "undefined" (padded (parse_childViews ks) !! i) = " " +:+ k +:+ " ".
Proof. intros H. simpl. by rewrite list_lookup_fmap, H. Qed.








End TemplateFacts.

(* ================================================================== *)
(** * Part V: more on the builder *)
(* ================================================================== *)

Module StackMore.
Import Stack StackFacts.

(** ** What each piece leaves alone *)

Lemma closeElem_frame st obj st' :
  _closeElem st obj = Some st' →
  length (stack st') = length (stack st)
  ∧ log st' = log st ∧ startID st' = startID st.
Proof.
  unfold _closeElem. intros H.
  destruct (processChildren obj) as [o|]; [simpl in H|done].
  destruct (stack st) as [|top rest] eqn:E.
  - destruct (processObject o) as [o'|]; [simpl in H|done].
    injection H as <-. simpl. by rewrite E.
  - injection H as <-. simpl. done.
Qed.

Lemma unwind_frame tagName : ∀ fuel st openElem st' held,
  unwind fuel st openElem tagName = Some (st', held) →
  length (stack st') ≤ length (stack st)
  ∧ log st' = log st ∧ startID st' = startID st.
Proof.
  induction fuel as [|fuel IH]; intros st openElem st' held H;
    destruct openElem as [f|]; simpl in H; simplify_eq; try done;
    destruct (strict_eq (f_tagName f) tagName); simpl in H; simplify_eq;
    try done.
  destruct (_closeElem st (frame_obj f)) as [st1|] eqn:Hc; [simpl in H|done].
  apply closeElem_frame in Hc as (Hlen & Hlog & Hid).
  apply IH in H as (Hlen' & Hlog' & Hid'). simpl in *.
  rewrite Hlog', Hid', <- Hlen. split; [|done].
  etrans; [exact Hlen'|]. destruct (stack st1); simpl; lia.
Qed.

Lemma closeAll_frame : ∀ fuel st st',
  closeAll fuel st = Some st' →
  stack st' = [] ∧ log st' = log st ∧ startID st' = startID st.
Proof.
  induction fuel as [|fuel IH]; intros st st' H; simpl in H;
    destruct (peek st) as [top|] eqn:Hp; simplify_eq.
  - unfold peek in Hp. by destruct (stack st').
  - destruct (closeElement st (closing_of top)) as [st1|] eqn:Hc;
      [simpl in H|done].
    apply IH in H as (Hs & Hlog & Hid). rewrite Hs, Hlog, Hid.
    unfold peek in Hp. destruct (stack st) as [|top' rest] eqn:E; [done|].
    injection Hp as ->.
    rewrite (closeElement_match st (closing_of top) top rest E) in Hc.
    + apply closeElem_frame in Hc as (_ & ? & ?). done.
    + simpl. apply String.eqb_refl.
  - unfold peek in Hp. by destruct (stack st').
Qed.

Lemma set_stack_same st : set_stack st (stack st) = st.
Proof. by destruct st. Qed.

Lemma openElement_children st type v :
  f_children (snd (openElement st type v)) = []
  ∧ f_id (snd (openElement st type v)) = getID st.
Proof. simpl. by destruct (strict_eq type types.ELEMENT). Qed.

Lemma processChildren_childless f :
  f_children f = [] → processChildren (frame_obj f) = Some (frame_obj f).
Proof. destruct f; simpl; by intros ->. Qed.

(** ** Opening and closing *)

(** X1.  A frame closed with the handle [openElement] returned for it, and
    with nothing resolved in between, leaves the stack and the log as they
    were before it was opened: the frame becomes one entry, normalized in
    the result when no frame is open, and as it is in the array of the
    frame on top otherwise. *)
Theorem open_close_balanced st type v :
  ∃ node,
    processObject (frame_obj (snd (openElement st type v))) = Some (VObj node)
    ∧ closeElement (fst (openElement st type v))
        (closing_of (snd (openElement st type v)))
      = Some (match stack st with
              | [] => set_result st (result st ++ [VObj node])
              | top :: rest =>
                  set_stack st
                    (push_into top (frame_obj (snd (openElement st type v)))
                     :: rest)
              end).
Proof.
  destruct (openElement_children st type v) as [Hch Hid].
  set (elem := snd (openElement st type v)) in *.
  destruct (frame_obj_normalizes elem) as [o Ho].
  assert (∃ node, o = VObj node) as [node ->].
  { destruct elem; by apply processObject_obj in Ho. }
  exists node. split; [exact Ho|].
  rewrite (closeElement_match (fst (openElement st type v)) (closing_of elem)
             elem (stack st) eq_refl); [|simpl; apply String.eqb_refl].
  change (set_stack (fst (openElement st type v)) (stack st))
    with (set_stack st (stack st)).
  rewrite set_stack_same. unfold _closeElem.
  rewrite (processChildren_childless elem Hch). simpl.
  destruct (stack st); [|done]. by rewrite Ho.
Qed.

(** X2.  [popElement] undoes [openElement]: it gives back the frame and
    the builder as it was, without finalizing anything. *)
Theorem popElement_openElement st type v :
  popElement (fst (openElement st type v))
  = (st, Some (snd (openElement st type v))).
Proof. destruct st. reflexivity. Qed.

(** X3.  [closeElement] never grows the stack and shortens a stack that is
    not empty; it adds at most one diagnostic and leaves [startID]. *)
Theorem closeElement_never_grows st c st' :
  closeElement st c = Some st' →
  length (stack st') ≤ length (stack st)
  ∧ (stack st ≠ [] → length (stack st') < length (stack st))
  ∧ (log st' = log st ∨ ∃ msg, log st' = log st ++ [msg])
  ∧ startID st' = startID st.
Proof.
  intros H. destruct (stack st) as [|top rest] eqn:Hs.
  - destruct st as [sid res stk lg], c as [id tagName]. simpl in Hs. subst stk.
    destruct (strict_eq tagName (VStr "p")) eqn:E.
    + apply strict_eq_str in E as ->. rewrite closeElement_stray_p in H.
      injection H as <-. simpl. split; [done|]. split; [done|].
      split; [by left|done].
    + rewrite closeElement_stray_other in H by done.
      injection H as <-. simpl. split; [done|]. split; [done|].
      split; [right; eauto|done].
  - destruct (strict_eq (VStr (f_id top)) (c_id c)) eqn:Hid.
    + rewrite (closeElement_match st c top rest Hs Hid) in H.
      apply closeElem_frame in H as (Hlen & Hlog & Hsid). simpl in *.
      rewrite Hlen. split; [lia|]. split; [intros _; lia|].
      split; [by left|done].
    + rewrite (closeElement_mismatch st c top rest Hs Hid) in H.
      destruct (unwind _ _ _ _) as [[st2 held]|] eqn:Hu; [|done].
      injection H as <-.
      apply unwind_frame in Hu as (Hlen & Hlog & Hsid). simpl in *.
      split; [lia|]. split; [intros _; lia|].
      split; [right; eauto|done].
Qed.

Lemma closeElement_never_grows_witness :
  ∃ st',
    closeElement (mkState "" [] [Block types.SECTION "0" (VStr "items") []] [])
      (mkClosing (VStr "0") VUndef) = Some st'
    ∧ length (stack st') ≤ 1.
Proof.
  eexists. split; [reflexivity|].
  exact (proj1 (closeElement_never_grows
                  (mkState "" [] [Block types.SECTION "0" (VStr "items") []] [])
                  (mkClosing (VStr "0") VUndef) _ eq_refl)).
Defined.

(** X4.  A close request with the address of the top frame closes it and
    logs nothing, whatever tag name the request carries. *)
Theorem closeElement_matching_address_ignores_tag st top rest id tag1 tag2 st' :
  stack st = top :: rest →
  strict_eq (VStr (f_id top)) id = true →
  closeElement st (mkClosing id tag1) = Some st' →
  closeElement st (mkClosing id tag2) = Some st'
  ∧ log st' = log st
  ∧ length (stack st') = length rest.
Proof.
  intros Hs Hid H.
  rewrite (closeElement_match st (mkClosing id tag2) top rest Hs Hid).
  rewrite (closeElement_match st (mkClosing id tag1) top rest Hs Hid) in H.
  split; [exact H|]. apply closeElem_frame in H as (? & ? & ?). done.
Qed.

Lemma closeElement_matching_address_ignores_tag_witness :
  closeElement (mkState "" [] [Elem "0" (VStr "div") [] []] [])
    (mkClosing (VStr "0") (VStr "span"))
  = Some (mkState "" [VObj [("type", VNum 7); ("tagName", VStr "div");
                            ("attributes", VArr [])]] [] []).
Proof.
  exact (proj1 (closeElement_matching_address_ignores_tag
                  (mkState "" [] [Elem "0" (VStr "div") [] []] [])
                  (Elem "0" (VStr "div") [] []) [] (VStr "0")
                  (VStr "div") (VStr "span") _ eq_refl eq_refl eq_refl)).
Defined.

(** X5.  Diagnostics come from [closeElement] alone: no other operation,
    [getOutput] with its forced closes included, changes the log. *)
Theorem only_closeElement_logs st o st' :
  step st o = Some st' →
  (∀ c, o ≠ CloseElement c) →
  log st' = log st.
Proof.
  intros H Ho. destruct o; simpl in H.
  - by injection H as <-.
  - by apply closeElem_frame in H as (_ & ? & _).
  - by apply closeElem_frame in H as (_ & ? & _).
  - by destruct (Ho closingElem).
  - by injection H as <-.
  - unfold getOutput in H.
    destruct (closeAll (length (stack st)) st) as [st1|] eqn:Hc; [|done].
    simpl in H. injection H as <-. by apply closeAll_frame in Hc as (_ & ? & _).
  - by injection H as <-.
Qed.

Lemma only_closeElement_logs_witness :
  ∃ st',
    step (mkState "" [] [Elem "0.0" (VStr "br") [] []; Elem "0" (VStr "div") [] []] [])
      GetOutput = Some st'
    ∧ log st' = [].
Proof.
  eexists. split; [vm_compute; reflexivity|].
  apply (only_closeElement_logs
           (mkState "" [] [Elem "0.0" (VStr "br") [] []; Elem "0" (VStr "div") [] []] [])
           GetOutput).
  - vm_compute. reflexivity.
  - intros c. discriminate.
Defined.

(** ** [getOutput] *)





(** X7.  [getOutput] can be asked again: a second call returns the same
    output and leaves the builder as the first call left it. *)
Theorem getOutput_again st st' output :
  getOutput st = Some (st', output) →
  getOutput st' = Some (st', output).
Proof.
  unfold getOutput. intros H.
  destruct (closeAll (length (stack st)) st) as [st1|] eqn:Hc; [|done].
  simpl in H. injection H as <- <-.
  apply closeAll_frame in Hc as (Hs & _). rewrite Hs. simpl.
  unfold peek. rewrite Hs. reflexivity.
Qed.

Lemma getOutput_again_witness :
  ∃ st' output,
    getOutput (mkState "" [] [Block types.SECTION "0" (VStr "items") [VStr "b"]] [])
    = Some (st', output)
    ∧ getOutput st' = Some (st', output).
Proof.
  eexists _, _. split; [vm_compute; reflexivity|].
  apply (getOutput_again
           (mkState "" [] [Block types.SECTION "0" (VStr "items") [VStr "b"]] [])).
  vm_compute. reflexivity.
Defined.

(** ** Text *)

Lemma createObject_text st pre t s :
  stack st = [] → result st = pre ++ [VStr t] →
  createObject st (VStr s) = Some (set_result st (pre ++ [VStr (t +:+ s)])).
Proof.
  intros Hs Hr. unfold createObject, _closeElem.
  replace (truthy (VStr s) && strict_eq (field "type" (VStr s)) (VStr "Widget"))
    with false by (simpl; by rewrite andb_false_r).
  simpl. rewrite Hs. simpl.
  unfold push. rewrite Hr, last_snoc, removelast_last. reflexivity.
Qed.

Lemma append_cons c s t : String c s +:+ t = String c (s +:+ t).
Proof. reflexivity. Qed.

Lemma append_empty_l s : "" +:+ s = s.
Proof. reflexivity. Qed.

Lemma append_empty_r s : s +:+ "" = s.
Proof.
  induction s as [|c s IH]; [done|]. by rewrite append_cons, IH.
Qed.

Lemma append_append s1 s2 s3 : (s1 +:+ s2) +:+ s3 = s1 +:+ (s2 +:+ s3).
Proof.
  induction s1 as [|c s1 IH]; [done|]. by rewrite !append_cons, IH.
Qed.

Lemma concat_empty_cons s ss :
  String.concat "" (s :: ss) = s +:+ String.concat "" ss.
Proof.
  destruct ss as [|s' ss]; [by rewrite append_empty_r|].
  change (String.concat "" (s :: s' :: ss))
    with (s +:+ ("" +:+ String.concat "" (s' :: ss))).
  by rewrite append_empty_l.
Qed.

Lemma run_text ss : ∀ st pre t,
  stack st = [] → result st = pre ++ [VStr t] →
  run st (map (fun s => CreateObject (VStr s)) ss)
  = Some (set_result st (pre ++ [VStr (t +:+ String.concat "" ss)])).
Proof.
  induction ss as [|s ss IH]; intros st pre t Hs Hr.
  - cbn [map run String.concat]. rewrite append_empty_r, <- Hr.
    by destruct st.
  - cbn [map run step]. rewrite (createObject_text st pre t s Hs Hr).
    cbn [mbind option_bind].
    rewrite (IH (set_result st (pre ++ [VStr (t +:+ s)])) pre (t +:+ s))
      by done.
    rewrite concat_empty_cons, append_append. reflexivity.
Qed.

(** X8.  Text resolved piece by piece into a new builder is one entry, the
    concatenation of the pieces, and that string is the output. *)
Theorem text_pieces_concatenate sid lg s ss :
  ∃ st',
    run (mkState sid [] [] lg) (map (fun s => CreateObject (VStr s)) (s :: ss))
    = Some st'
    ∧ result st' = [VStr (String.concat "" (s :: ss))]
    ∧ getOutput st' = Some (st', VStr (String.concat "" (s :: ss))).
Proof.
  cbn [map run step].
  assert (createObject (mkState sid [] [] lg) (VStr s)
          = Some (mkState sid [VStr s] [] lg)) as ->.
  { unfold createObject, _closeElem.
    replace (truthy (VStr s) && strict_eq (field "type" (VStr s)) (VStr "Widget"))
      with false by (simpl; by rewrite andb_false_r).
    reflexivity. }
  cbn [mbind option_bind].
  rewrite (run_text ss (mkState sid [VStr s] [] lg) [] s) by done.
  rewrite <- concat_empty_cons.
  eexists. split; [reflexivity|]. split; reflexivity.
Qed.

(** ** Normalization *)

(** X9.  Normalizing a normalized node again changes nothing, for the
    nodes of elements, interpolators, triples, references, partials and
    both kinds of section.  A comment is the exception: its node has the
    numeric type [COMMENT], for which [processObject] has no case, and a
    second normalization turns it into the empty object. *)
Theorem processObject_again ps o :
  processObject (VObj ps) = Some o →
  (field "type" (VObj ps) = types.ELEMENT
   ∨ field "type" (VObj ps) = types.INTERPOLATOR
   ∨ field "type" (VObj ps) = types.TRIPLE
   ∨ field "type" (VObj ps) = types.REFERENCE
   ∨ field "type" (VObj ps) = types.PARTIAL
   ∨ field "type" (VObj ps) = types.SECTION
   ∨ field "type" (VObj ps) = types.SECTION_UNLESS →
   processObject o = Some o)
  ∧ (field "type" (VObj ps) = VStr "comment" →
     o = VObj [("type", types.COMMENT); ("value", field "text" (VObj ps))]
     ∧ processObject o = Some (VObj [])).
Proof.
  intros H. unfold processObject in H. split.
  - intros Hty.
    destruct Hty as [Hty|[Hty|[Hty|[Hty|[Hty|[Hty|Hty]]]]]];
      rewrite Hty in H; cbn [strict_eq types.ELEMENT types.INTERPOLATOR
        types.TRIPLE types.REFERENCE types.PARTIAL types.SECTION
        types.SECTION_UNLESS Z.eqb Pos.eqb orb] in H;
      try (injection H as <-; reflexivity);
      unfold has_children in H;
      (destruct (field "children" (VObj ps)) as [| | | |str|xs|cps] eqn:Hc;
       cbn [mbind option_bind] in H; try discriminate H;
       [ injection H as <-; reflexivity
       | injection H as <-; reflexivity
       | injection H as <-; reflexivity
       | injection H as <-; reflexivity
       | destruct str; injection H as <-; reflexivity
       | destruct xs; injection H as <-; reflexivity
       | destruct (field "length" (VObj cps)) as [| |[]|n| | |] eqn:Hlen;
         cbn [mbind option_bind] in H; try discriminate H;
         try (destruct (0 <? n)%Z eqn:Hn);
         injection H as <-; try reflexivity;
         unfold processObject, has_children;
         cbn [field assoc assign String.eqb Ascii.eqb Bool.eqb
              templateKeys.type templateKeys.tagName templateKeys.attributes
              templateKeys.children templateKeys.value default from_option id
              strict_eq types.ELEMENT types.INTERPOLATOR
              types.TRIPLE types.REFERENCE types.PARTIAL types.SECTION
              types.SECTION_UNLESS Z.eqb Pos.eqb orb];
         change (default VUndef (assoc "length" cps))
           with (field "length" (VObj cps));
         rewrite Hlen; cbn [mbind option_bind]; rewrite ?Hn; reflexivity ]).
  - intros Hty. rewrite Hty in H. simpl in H. injection H as <-.
    split; reflexivity.
Qed.

Lemma processObject_again_witness :
  processObject
    (VObj [("type", VNum 7); ("tagName", VStr "li"); ("attributes", VArr []);
           ("children", VArr [VStr "hi"])])
  = Some (VObj [("type", VNum 7); ("tagName", VStr "li"); ("attributes", VArr []);
                ("children", VArr [VStr "hi"])])
  ∧ processObject (VObj [("type", VNum 9); ("value", VStr "note")])
    = Some (VObj []).
Proof.
  split.
  - apply (proj1 (processObject_again
                    [("children", VArr [VStr "hi"]); ("type", VNum 7);
                     ("id", VStr "0"); ("tagName", VStr "li");
                     ("attributes", VArr []); ("isOpen", VBool true)]
                    _ eq_refl)).
    left. reflexivity.
  - apply (proj2 (processObject_again
                    [("type", VStr "comment"); ("text", VStr "note")]
                    _ eq_refl)).
    reflexivity.
Defined.

(** X10.  A Widget resolved while no frame is open is lost: what joins the
    result is the empty object, since [processObject] has no case for the
    type ['Widget']. *)
Theorem createObject_widget_at_root st ps st' :
  stack st = [] →
  field "type" (VObj ps) = VStr "Widget" →
  createObject st (VObj ps) = Some st' →
  st' = set_result st (result st ++ [VObj []]).
Proof.
  intros Hs Hty H. unfold createObject in H. rewrite Hty in H.
  cbn [truthy strict_eq andb] in H.
  change (String.eqb "Widget" "Widget") with true in H. cbv iota in H.
  unfold _closeElem in H.
  destruct (processChildren (VObj (assign ps "id" (VStr (getID st)))))
    as [o|] eqn:Hc; [|done].
  cbn [mbind option_bind] in H. rewrite Hs in H.
  pose proof (processChildren_field _ o "type" Hc ltac:(done)) as Ho.
  apply processChildren_obj in Hc as [ps' ->].
  assert (field "type" (VObj ps') = VStr "Widget") as Hw.
  { rewrite Ho. unfold field. rewrite assoc_assign_ne by done. exact Hty. }
  unfold processObject in H. rewrite Hw in H. simpl in H. by injection H as <-.
Qed.

Lemma createObject_widget_at_root_witness :
  ∃ st',
    createObject TemplateStack
      (VObj [("type", VStr "Widget"); ("childView", VStr "ItemView")]) = Some st'
    ∧ st' = mkState "" [VObj []] [] [].
Proof.
  eexists. split; [vm_compute; reflexivity|].
  exact (createObject_widget_at_root TemplateStack
           [("type", VStr "Widget"); ("childView", VStr "ItemView")]
           _ eq_refl eq_refl eq_refl).
Defined.

(** ** Addresses *)

Lemma processChildren_is_str x o :
  processChildren x = Some o → is_str o = is_str x.
Proof.
  destruct x as [| |b|n|s|xs|ps]; intros H; try discriminate H;
    try (injection H as <-; reflexivity).
  by apply processChildren_obj in H as [ps' ->].
Qed.

Lemma createObject_open st obj top rest st' :
  stack st = top :: rest →
  createObject st obj = Some st' →
  ∃ o, st' = set_stack st (push_into top o :: rest) ∧ is_str o = is_str obj.
Proof.
  intros Hs H. unfold createObject, _closeElem in H.
  destruct (processChildren _) as [o|] eqn:Hc; [|done].
  cbn [mbind option_bind] in H. rewrite Hs in H. injection H as <-.
  exists o. split; [done|].
  apply processChildren_is_str in Hc. rewrite Hc.
  destruct (truthy obj && _); [|done]. by destruct obj.
Qed.

(** X11.  The address [getID] gives next counts the children of the frame
    on top.  Under an open Element it does not advance, whatever is
    resolved, because an open Element collects everything in its
    attributes; under any other frame it advances by one for every object
    resolved, and it stays where it is when a string is joined to the
    string before it. *)
Theorem getID_after_createObject st obj st' :
  createObject st obj = Some st' →
  (∀ id tag attrs ch rest,
     stack st = Elem id tag attrs ch :: rest →
     getID st' = getID st)
  ∧ (∀ ty id v ch rest,
       stack st = Block ty id v ch :: rest → is_str obj = false →
       getID st = id +:+ "." +:+ pretty (length ch)
       ∧ getID st' = id +:+ "." +:+ pretty (S (length ch)))
  ∧ (∀ ty id v ch rest s t,
       stack st = Block ty id v ch :: rest →
       obj = VStr s → last ch = Some (VStr t) →
       getID st' = getID st).
Proof.
  intros H. split; [|split].
  - intros id tag attrs ch rest Hs.
    destruct (createObject_open st obj _ rest st' Hs H) as (o & -> & _).
    unfold getID, peek. rewrite Hs. reflexivity.
  - intros ty id v ch rest Hs Hobj.
    destruct (createObject_open st obj _ rest st' Hs H) as (o & -> & Ho).
    unfold getID, peek. rewrite Hs. cbn [stack set_stack head push_into
      f_id f_children]. split; [done|].
    rewrite Hobj in Ho.
    destruct o; try discriminate Ho; unfold push; cbv beta iota;
      rewrite length_app, Nat.add_1_r; reflexivity.
  - intros ty id v ch rest s t Hs -> Hl.
    destruct (createObject_open st (VStr s) _ rest st' Hs H) as (o & -> & Ho).
    destruct o as [| | | |s'| |]; try discriminate Ho.
    unfold getID, peek. rewrite Hs. cbn [stack set_stack head push_into
      f_id f_children].
    by rewrite (proj2 (push_concatenates ch s' t Hl)).
Qed.

Lemma getID_after_createObject_witness :
  ∃ st',
    createObject (mkState "" [] [Elem "0" (VStr "div") [] []] [])
      (VObj [("type", VStr "Widget")]) = Some st'
    ∧ getID st' = "0.0"
    ∧ stack st' = [Elem "0" (VStr "div")
                     [VObj [("type", VStr "Widget"); ("id", VStr "0.0")]] []].
Proof.
  eexists. split; [vm_compute; reflexivity|]. split; [|reflexivity].
  apply (proj1 (getID_after_createObject
                  (mkState "" [] [Elem "0" (VStr "div") [] []] [])
                  (VObj [("type", VStr "Widget")]) _ eq_refl)
           "0" (VStr "div") [] [] []).
  reflexivity.
Defined.

End StackMore.

(* ================================================================== *)
(** * Part VI: more on the template facade *)
(* ================================================================== *)

Module TemplateMore.
Import Template TemplateFacts.

(** ** What [attachViews] returns *)

(** X12.  Handed an array, [attachViews] returns that very array (the
    same reference, not a copy), and the array has the length it had. *)
Theorem attachViews_returns_the_array registeredPartials PARTIAL
    getInterpolatorKey fuel s view l xs widgetWrapper partials childClasses
    s' r :
  heap s !! l = Some (Arr xs) →
  attachViews registeredPartials PARTIAL getInterpolatorKey fuel
    s view (VRef l) widgetWrapper partials childClasses = Ok (s', r) →
  r = VRef l
  ∧ ∃ xs', heap s' !! l = Some (Arr xs') ∧ length xs' = length xs.
Proof.
  intros Hl H. split.
  - destruct fuel as [|fuel]; simpl in H; [discriminate H|].
    unfold attachViews_body, isArray in H. rewrite Hl in H.
    apply bind_Ok in H as (s1 & _ & H). by injection H as <- <-.
  - destruct (attachViews_kept _ _ _ _ _ _ _ _ _ _ _ _ H l _ Hl)
      as ([xs'|ps'] & Hl' & Hk); [|done]. eauto.
Qed.

Lemma attachViews_returns_the_array_witness :
  ∃ s',
    attachViews (VRef 5) 8 key_r 5 row_store (VRef 0) (VRef 3) (VRef 10)
      (VRef 5) None = Ok (s', VRef 3)
    ∧ ∃ xs', heap s' !! 3 = Some (Arr xs') ∧ length xs' = 1.
Proof.
  eexists. split; [vm_compute; reflexivity|].
  exact (proj2 (attachViews_returns_the_array (VRef 5) 8 key_r 5 row_store
                  (VRef 0) 3 [VRef 4] (VRef 10) (VRef 5) None _ _
                  eq_refl ltac:(vm_compute; reflexivity))).
Defined.

Lemma attach_widget_root view widgetWrapper s l ps partials cc :
  heap s !! l = Some (Obj ps) →
  truthy (default VUndef (get "root" ps)) = true →
  attach_widget view widgetWrapper s (VRef l) partials cc
  = Ok (s, VRef l, cc).
Proof.
  intros Hl Hroot. unfold attach_widget.
  rewrite (prop_obj _ _ _ "root" Hl eq_refl). cbn [mbind outcome_bind].
  by rewrite Hroot.
Qed.

(** What is left of [attachViews_body] for a node that the Widget step
    has left in place. *)
Lemma attachViews_not_partial registeredPartials PARTIAL getInterpolatorKey
    fuel s view l ps widgetWrapper partials cc cc' s' r :
  heap s !! l = Some (Obj ps) →
  strict_eq (default VUndef (get "t" ps)) (VNum PARTIAL) = false →
  attach_widget view widgetWrapper s (VRef l) partials cc = Ok (s, VRef l, cc') →
  attachViews registeredPartials PARTIAL getInterpolatorKey (S fuel)
    s view (VRef l) widgetWrapper partials cc = Ok (s', r) →
  r = VRef l.
Proof.
  intros Hl Ht Hw H. cbn [attachViews] in H.
  unfold attachViews_body, isArray in H. rewrite Hl, Hw in H.
  cbn [mbind outcome_bind] in H.
  apply bind_Ok in H as (f & _ & H). apply bind_Ok in H as (s1 & Hf & H).
  assert (kept (heap s) (heap s1)) as Hk.
  { destruct (truthy f); [|injection Hf as <-; apply kept_refl].
    apply bind_Ok in Hf as (s2 & Hc & Hf).
    eapply kept_trans; [|by eapply flatten_children_kept].
    eapply attach_children_kept; [|exact Hc].
    intros s0 t0 p0 c0 s0' r0 Hr. eapply attachViews_kept. exact Hr. }
  destruct (Hk l _ Hl) as ([xs'|ps'] & Hl' & Hc); [done|].
  unfold attach_partial in H. rewrite (prop_obj _ _ _ "t" Hl' eq_refl) in H.
  cbn [mbind outcome_bind] in H. simpl in Hc. rewrite (Hc "t") in H by done.
  rewrite Ht in H. by injection H as <- <-.
Qed.

(** X13.  The node flagged [root] is never replaced by a Widget, also
    when its class has a registered selector: unless it is a Partial
    node, [attachViews] returns the node itself, with every property but
    [f] as it was. *)
Theorem attachViews_root_is_not_replaced registeredPartials PARTIAL
    getInterpolatorKey fuel s view l ps widgetWrapper partials cc s' r :
  heap s !! l = Some (Obj ps) →
  truthy (default VUndef (get "root" ps)) = true →
  strict_eq (default VUndef (get "t" ps)) (VNum PARTIAL) = false →
  attachViews registeredPartials PARTIAL getInterpolatorKey fuel
    s view (VRef l) widgetWrapper partials cc = Ok (s', r) →
  r = VRef l
  ∧ ∃ ps', heap s' !! l = Some (Obj ps')
           ∧ ∀ k, k ≠ "f" → get k ps' = get k ps.
Proof.
  intros Hl Hroot Ht H. split.
  - destruct fuel as [|fuel]; [simpl in H; discriminate H|].
    eapply attachViews_not_partial; [exact Hl|exact Ht| |exact H].
    by apply (attach_widget_root _ _ _ _ ps).
  - destruct (attachViews_kept _ _ _ _ _ _ _ _ _ _ _ _ H l _ Hl)
      as ([xs'|ps'] & Hl' & Hk); [done|]. eauto.
Qed.

Lemma attachViews_root_is_not_replaced_witness :
  find_class " item " [" item "] 1 = Some 0
  ∧ ∃ s' r,
      attachViews (VRef 4) 8 key_r 5 root_store (VRef 0) (VRef 2) VNull
        (VRef 4) None = Ok (s', r)
      ∧ r = VRef 2.
Proof.
  split; [reflexivity|].
  assert (∃ s' r, attachViews (VRef 4) 8 key_r 5 root_store (VRef 0) (VRef 2)
                    VNull (VRef 4) None = Ok (s', r)) as (s' & r & H)
    by (eexists _, _; vm_compute; reflexivity).
  exists s', r. split; [exact H|].
  exact (proj1 (attachViews_root_is_not_replaced (VRef 4) 8 key_r 5 root_store
                  (VRef 0) 2 _ VNull (VRef 4) None s' r
                  eq_refl eq_refl eq_refl H)).
Defined.

Lemma find_class_None className pd : ∀ n : nat,
  (∀ j : nat, j < n → contains (default "undefined" (pd !! j)) className = false) →
  find_class className pd n = None.
Proof.
  induction n as [|n IH]; intros Hno; [done|]. simpl.
  rewrite (Hno n) by lia. apply IH. intros j Hj. apply Hno. lia.
Qed.

(** X14.  An element none of whose classes is a registered selector is no
    error: an element without children is returned as it is, nothing is
    written, allocated or logged. *)
Theorem attachViews_unmatched_element_is_kept registeredPartials PARTIAL
    getInterpolatorKey fuel s view widgetWrapper partials
    l ps lc cvs a cn className :
  heap s !! l = Some (Obj ps) →
  truthy (default VUndef (get "root" ps)) = false →
  truthy (default VUndef (get "f" ps)) = false →
  strict_eq (default VUndef (get "t" ps)) (VNum PARTIAL) = false →
  prop (heap s) view "childViews" = Ok (VRef lc) →
  heap s !! lc = Some (Obj cvs) →
  get "a" ps = Some a → truthy a = true →
  prop (heap s) a "class" = Ok cn → truthy cn = true →
  static_class (heap s) cn = Ok className →
  forallb (λ k, negb (contains (" " +:+ k +:+ " ") className)) (cvs.*1) = true →
  attachViews registeredPartials PARTIAL getInterpolatorKey (S fuel)
    s view (VRef l) widgetWrapper partials None = Ok (s, VRef l).
Proof.
  intros Hl Hroot Hf Ht Hcv Hlc Ha Hta Hcn Htcn Hcls Hno.
  rewrite forallb_forall in Hno.
  assert (Hw :
    attach_widget view widgetWrapper s (VRef l) partials None
    = Ok (s, VRef l, Some (parse_childViews (cvs.*1)))).
  { unfold attach_widget.
    rewrite (prop_obj _ _ _ "root" Hl eq_refl). cbn [mbind outcome_bind].
    rewrite Hroot, Hcv. cbn [mbind outcome_bind truthy negb].
    unfold keys. rewrite Hlc. cbn [mbind outcome_bind].
    rewrite (prop_obj _ _ _ "a" Hl eq_refl), Ha.
    cbn [mbind outcome_bind default from_option id].
    rewrite Hta. cbn [negb]. rewrite Hcn. cbn [mbind outcome_bind].
    rewrite Htcn. cbn [negb]. rewrite Hcls. cbn [mbind outcome_bind].
    rewrite find_class_None; [done|].
    intros j Hj. cbn [len parse_childViews] in Hj.
    destruct (lookup_lt_is_Some_2 (cvs.*1) j Hj) as [k Hk].
    rewrite (padded_lookup _ j k Hk). apply negb_true_iff, Hno.
    apply list_elem_of_In. by eapply list_elem_of_lookup_2. }
  cbn [attachViews]. unfold attachViews_body, isArray. rewrite Hl, Hw.
  cbn [mbind outcome_bind]. rewrite (prop_obj _ _ _ "f" Hl eq_refl).
  cbn [mbind outcome_bind]. rewrite Hf. cbn [mbind outcome_bind].
  unfold attach_partial. rewrite (prop_obj _ _ _ "t" Hl eq_refl).
  cbn [mbind outcome_bind]. by rewrite Ht.
Qed.

Lemma attachViews_unmatched_element_is_kept_witness :
  attachViews (VRef 4) 8 key_r 1 plain_store (VRef 0) (VRef 2) VNull (VRef 4) None
  = Ok (plain_store, VRef 2).
Proof.
  apply (attachViews_unmatched_element_is_kept (VRef 4) 8 key_r 0 plain_store
           (VRef 0) VNull (VRef 4) 2
           [("t", VNum 7); ("e", VStr "li"); ("a", VRef 3)] 1
           [("item", VStr "ItemView"); ("big", VStr "BigView")]
           (VRef 3) (VStr "item-big") " item-big ");
    reflexivity.
Defined.

(** ** What raises and what does not end *)

Lemma attachViews_step registeredPartials PARTIAL getInterpolatorKey fuel
    s view template widgetWrapper partials cc :
  attachViews registeredPartials PARTIAL getInterpolatorKey (S fuel)
    s view template widgetWrapper partials cc
  = attachViews_body registeredPartials PARTIAL getInterpolatorKey
      view widgetWrapper
      (fun s template partials childClasses =>
         attachViews registeredPartials PARTIAL getInterpolatorKey fuel
           s view template widgetWrapper partials childClasses)
      fuel s template partials cc.
Proof. reflexivity. Qed.

Lemma attach_widget_no_childViews view widgetWrapper s l ps partials cc cv :
  heap s !! l = Some (Obj ps) →
  prop (heap s) view "childViews" = Ok cv → truthy cv = false →
  attach_widget view widgetWrapper s (VRef l) partials cc = Ok (s, VRef l, cc).
Proof.
  intros Hl Hcv Ht. unfold attach_widget.
  rewrite (prop_obj _ _ _ "root" Hl eq_refl). cbn [mbind outcome_bind].
  destruct (truthy (default VUndef (get "root" ps))); [done|].
  rewrite Hcv. cbn [mbind outcome_bind]. by rewrite Ht.
Qed.

Lemma attachViews_unresolved registeredPartials PARTIAL getInterpolatorKey
    fuel s view l ps widgetWrapper partials cc cv found :
  heap s !! l = Some (Obj ps) →
  get "t" ps = Some (VNum PARTIAL) →
  truthy (default VUndef (get "f" ps)) = false →
  prop (heap s) view "childViews" = Ok cv → truthy cv = false →
  prop (heap s) partials (getInterpolatorKey (heap s) (VRef l)) = Ok found →
  truthy found = false →
  attachViews registeredPartials PARTIAL getInterpolatorKey (S fuel)
    s view (VRef l) widgetWrapper partials cc
  = Ok (warn s ("Warning: no partial registered with the name "
                +:+ getInterpolatorKey (heap s) (VRef l)), VNull).
Proof.
  intros Hl Ht Hf Hcv Htcv Hfound Htf.
  cbn [attachViews]. unfold attachViews_body, isArray.
  rewrite Hl, (attach_widget_no_childViews _ _ _ _ _ _ _ _ Hl Hcv Htcv).
  cbn [mbind outcome_bind]. rewrite (prop_obj _ _ _ "f" Hl eq_refl).
  cbn [mbind outcome_bind]. rewrite Hf. cbn [mbind outcome_bind].
  unfold attach_partial. rewrite (prop_obj _ _ _ "t" Hl eq_refl), Ht.
  cbn [mbind outcome_bind default from_option id strict_eq].
  rewrite Z.eqb_refl, Hfound. cbn [mbind outcome_bind]. by rewrite Htf.
Qed.

(** X15.  A second pass over a graph raises once the first has replaced
    an unresolved Partial by [null]: the first pass writes the [null] into
    the array it was given, and [attachViews] reads [template.root] of
    every member that is not a string or an array. *)
Theorem attachViews_second_pass_raises registeredPartials PARTIAL
    getInterpolatorKey fuel fuel' s view l lp ps widgetWrapper partials
    cv found :
  heap s !! l = Some (Arr [VRef lp]) →
  heap s !! lp = Some (Obj ps) →
  get "t" ps = Some (VNum PARTIAL) →
  truthy (default VUndef (get "f" ps)) = false →
  prop (heap s) view "childViews" = Ok cv → truthy cv = false →
  prop (heap s) partials (getInterpolatorKey (heap s) (VRef lp)) = Ok found →
  truthy found = false →
  let s1 :=
    mkStore (<[l := Arr [VNull]]> (heap s))
      (log s ++ ["Warning: no partial registered with the name "
                 +:+ getInterpolatorKey (heap s) (VRef lp)]) in
  attachViews registeredPartials PARTIAL getInterpolatorKey (S (S fuel))
    s view (VRef l) widgetWrapper partials None = Ok (s1, VRef l)
  ∧ attachViews registeredPartials PARTIAL getInterpolatorKey (S (S fuel'))
      s1 view (VRef l) widgetWrapper partials None = Throw.
Proof.
  intros Hl Hlp Ht Hf Hcv Htcv Hfound Htf s1.
  assert (Hl1 : heap s1 !! l = Some (Arr [VNull])).
  { simpl. apply list_lookup_insert_eq. by eapply lookup_lt_Some. }
  split.
  - rewrite attachViews_step. unfold attachViews_body, isArray. rewrite Hl.
    cbn [attach_members]. rewrite Hl. cbn [lookup list_lookup].
    rewrite (attachViews_unresolved _ _ _ fuel s view lp ps _ _ None cv found)
      by done.
    cbn [mbind outcome_bind]. unfold store_index, warn. cbn [heap log].
    rewrite Hl. cbn [list_insert].
    change (mkStore _ _) with s1.
    destruct fuel; cbn [attach_members]; rewrite Hl1; reflexivity.
  - rewrite attachViews_step. unfold attachViews_body, isArray. rewrite Hl1.
    cbn [attach_members]. rewrite Hl1. cbn [lookup list_lookup].
    reflexivity.
Qed.

Lemma attachViews_second_pass_raises_witness :
  attachViews (VRef 2) 8 key_r 2 missing_store (VRef 3) (VRef 0) VNull (VRef 2) None
  = Ok (mkStore [Arr [VNull]; Obj [("t", VNum 8); ("r", VStr "missing")];
                 Obj []; Obj []]
          ["Warning: no partial registered with the name missing"], VRef 0)
  ∧ attachViews (VRef 2) 8 key_r 2
      (mkStore [Arr [VNull]; Obj [("t", VNum 8); ("r", VStr "missing")];
                Obj []; Obj []]
         ["Warning: no partial registered with the name missing"])
      (VRef 3) (VRef 0) VNull (VRef 2) None = Throw.
Proof.
  exact (attachViews_second_pass_raises (VRef 2) 8 key_r 0 0 missing_store
           (VRef 3) 0 1 [("t", VNum 8); ("r", VStr "missing")] VNull (VRef 2)
           VUndef VUndef eq_refl eq_refl eq_refl eq_refl eq_refl eq_refl
           eq_refl eq_refl).
Defined.

(** X16.  A partial that includes itself is followed without end: every
    call copies the graph of the partial and attaches the copy, which is
    the same Partial node again.  No amount of fuel lets the call return. *)
Theorem attachViews_self_including_partial_never_returns PARTIAL
    widgetWrapper lr lv lp name rps pps vps :
  get name rps = Some (VRef lp) →
  get "t" pps = Some (VNum PARTIAL) →
  get "r" pps = Some (VStr name) →
  truthy (default VUndef (get "f" pps)) = false →
  truthy (default VUndef (get "templateObj" pps)) = false →
  truthy (default VUndef (get "partials" pps)) = false →
  truthy (default VUndef (get "childViews" vps)) = false →
  ∀ fuel s l cc,
    heap s !! lr = Some (Obj rps) →
    heap s !! lp = Some (Obj pps) →
    heap s !! lv = Some (Obj vps) →
    heap s !! l = Some (Obj pps) →
    attachViews (VRef lr) PARTIAL key_r fuel s (VRef lv) (VRef l)
      widgetWrapper (VRef lr) cc = NoFuel.
Proof.
  intros Hname Ht Hr Hf Hto Hown Hcv.
  induction fuel as [|fuel IH]; intros s l cc Hlr Hlp Hlv Hl; [done|].
  assert (Hkey : key_r (heap s) (VRef l) = name).
  { unfold key_r. by rewrite (prop_obj _ _ _ "r" Hl eq_refl), Hr. }
  cbn [attachViews]. unfold attachViews_body, isArray.
  rewrite Hl, (attach_widget_no_childViews _ _ _ _ _ _ _ _ Hl
                 (prop_obj _ _ _ "childViews" Hlv eq_refl) Hcv).
  cbn [mbind outcome_bind]. rewrite (prop_obj _ _ _ "f" Hl eq_refl).
  cbn [mbind outcome_bind]. rewrite Hf. cbn [mbind outcome_bind].
  unfold attach_partial. rewrite (prop_obj _ _ _ "t" Hl eq_refl), Ht.
  cbn [mbind outcome_bind default from_option id strict_eq].
  rewrite Z.eqb_refl, Hkey, (prop_own _ _ _ name _ Hlr Hname).
  cbn [mbind outcome_bind default from_option id truthy negb].
  rewrite (prop_obj _ _ _ "templateObj" Hlp eq_refl). cbn [mbind outcome_bind].
  rewrite Hto. unfold clone. rewrite Hlp. cbn [mbind outcome_bind alloc].
  assert (Hlp' : (heap s ++ [Obj pps]) !! lp = Some (Obj pps))
    by (by apply lookup_app_l_Some).
  cbn [heap]. rewrite (prop_obj _ _ _ "partials" Hlp' eq_refl).
  cbn [mbind outcome_bind]. rewrite Hown.
  apply IH; cbn [heap]; try (by apply lookup_app_l_Some).
  by rewrite lookup_app_r, Nat.sub_diag.
Qed.

Lemma attachViews_self_including_partial_never_returns_witness :
  attachViews (VRef 1) 8 key_r 1000 loop_store (VRef 2) (VRef 0) VNull
    (VRef 1) None = NoFuel.
Proof.
  exact (attachViews_self_including_partial_never_returns 8 VNull 1 2 0 "loop"
           [("loop", VRef 0)] [("t", VNum 8); ("r", VStr "loop")] []
           eq_refl eq_refl eq_refl eq_refl eq_refl eq_refl eq_refl
           1000 loop_store 0 None eq_refl eq_refl eq_refl eq_refl).
Defined.

(** ** The facade *)

Lemma lookup_fresh (h : list cell) c : (h ++ [c]) !! length h = Some c.
Proof. by apply list_lookup_middle. Qed.

Lemma insert_fresh (h : list cell) c c' : <[length h := c']> (h ++ [c]) = h ++ [c'].
Proof. induction h as [|x h IH]; simpl; [done|]. by rewrite IH. Qed.

Lemma prop_kept h h' l ps k :
  kept h h' → h !! l = Some (Obj ps) → k ≠ "f" →
  prop h' (VRef l) k = prop h (VRef l) k.
Proof.
  intros Hk Hl Hne. destruct (Hk l _ Hl) as ([xs'|ps'] & Hl' & Hc); [done|].
  simpl in Hc. unfold prop. by rewrite Hl, Hl', Hc.
Qed.



(** X18.  [wrap] makes two new cells and writes no other: an element
    named [tagName] ([div] when [tagName] is undefined, null or the empty
    string) whose children [f] are the graph of this Template itself, not
    a copy, and a Template over it with the same partials, no view and the
    flag [wrapped].  [toString] of the result renders the wrapper
    element. *)
Theorem wrap_shares_the_graph registeredPartials ELEMENT (output : Type)
    (interpret : builder → list cell → val → val → val → val → output)
    s lthis thps tagName data :
  heap s !! lthis = Some (Obj thps) →
  let g := default VUndef (get "templateObj" thps) in
  let ps := default VUndef (get "partials" thps) in
  let n := length (heap s) in
  ∃ s', wrap ELEMENT s (VRef lthis) tagName = Ok (s', VRef (S n))
    ∧ heap s'
      = heap s ++
        [ Obj [("t", VNum ELEMENT);
               ("e", if truthy tagName then tagName else VStr "div");
               ("f", g)];
          Obj [("templateObj", VRef n); ("partials", ps); ("view", VUndef);
               ("wrapped", VBool true)] ]
    ∧ log s' = log s
    ∧ toString registeredPartials output interpret s' (VRef (S n)) data
      = Ok (interpret ToHtmlString (heap s') (VRef n) data
              (if truthy ps then ps else registeredPartials) VNull).
Proof.
  intros Hthis g ps n.
  set (el := Obj [("t", VNum ELEMENT);
                  ("e", if truthy tagName then tagName else VStr "div");
                  ("f", g)]).
  set (tp := Obj [("templateObj", VRef n); ("partials", ps); ("view", VUndef)]).
  set (tp' := Obj [("templateObj", VRef n); ("partials", ps); ("view", VUndef);
                   ("wrapped", VBool true)]).
  assert (Hlen : length (heap s ++ [el]) = S n)
    by (rewrite length_app; simpl; lia).
  assert (Hw : wrap ELEMENT s (VRef lthis) tagName
               = Ok (mkStore (heap s ++ [el; tp']) (log s), VRef (S n))).
  { unfold wrap. rewrite (prop_obj _ _ _ "templateObj" Hthis eq_refl).
    cbn [mbind outcome_bind alloc heap log].
    rewrite (prop_obj _ _ thps "partials"
               (lookup_app_l_Some _ _ _ _ Hthis) eq_refl).
    cbn [mbind outcome_bind new_Template alloc heap log].
    unfold assign_prop. cbn [heap]. rewrite lookup_fresh.
    unfold store_prop. cbn [heap log]. rewrite lookup_fresh.
    cbn [mbind outcome_bind].
    rewrite insert_fresh, <- (assoc_L (++)), length_app.
    cbn [length]. rewrite Nat.add_1_r. reflexivity. }
  eexists. split; [exact Hw|]. cbn [heap log].
  split; [done|]. split; [done|].
  assert (Htp : (heap s ++ [el; tp']) !! S n = Some tp').
  { change (heap s ++ [el; tp']) with (heap s ++ [el] ++ [tp']).
    rewrite (assoc_L (++)), <- Hlen. apply lookup_fresh. }
  unfold toString, templateToRender, _render. cbn [heap].
  rewrite (prop_obj _ _ _ "templateObj" Htp eq_refl), (prop_obj _ _ _ "view" Htp eq_refl),
    (prop_obj _ _ _ "partials" Htp eq_refl).
  reflexivity.
Qed.

Lemma wrap_shares_the_graph_witness :
  wrap 7 page_store (VRef 2) (VStr "") = Ok (wrapped_store, VRef 10)
  ∧ toString (VRef 3) val handed_template wrapped_store (VRef 10) VNull
    = Ok (VRef 9).
Proof.
  destruct (wrap_shares_the_graph (VRef 3) 7 val handed_template page_store 2
              [("templateObj", VRef 0); ("partials", VUndef); ("view", VUndef)]
              (VStr "") VNull eq_refl) as (s' & Hw & Hh & Hl & Ht).
  assert (s' = wrapped_store) as ->
    by (destruct s'; simpl in Hh, Hl; by subst).
  split; [exact Hw|exact Ht].
Defined.

(** X19.  [setPartials] then render: the next [toVdom] renders the graph
    and the view of the Template with the partials just set, and with the
    shared registry when they were set to undefined or null; no other
    cell is written. *)
Theorem setPartials_then_toVdom registeredPartials (output : Type)
    (interpret : builder → list cell → val → val → val → val → output)
    s lthis thps partials data :
  heap s !! lthis = Some (Obj thps) →
  ∃ s', setPartials s (VRef lthis) partials = Ok s'
    ∧ (∀ l, l ≠ lthis → heap s' !! l = heap s !! l)
    ∧ log s' = log s
    ∧ toVdom registeredPartials output interpret s' (VRef lthis) data
      = Ok (interpret ToVdom (heap s') (default VUndef (get "templateObj" thps))
              data (if truthy partials then partials else registeredPartials)
              (default VUndef (get "view" thps))).
Proof.
  intros Hthis. exists (store_prop s lthis "partials" partials).
  unfold setPartials, assign_prop. rewrite Hthis. split; [done|].
  unfold store_prop. rewrite Hthis. cbn [heap log].
  split; [intros l Hl; by apply list_lookup_insert_ne|]. split; [done|].
  assert (Hnew : <[lthis := Obj (set thps "partials" partials)]> (heap s) !! lthis
                 = Some (Obj (set thps "partials" partials))).
  { apply list_lookup_insert_eq. by eapply lookup_lt_Some. }
  unfold toVdom, _render. cbn [heap].
  rewrite (prop_obj _ _ _ "templateObj" Hnew eq_refl), (prop_obj _ _ _ "view" Hnew eq_refl),
    (prop_obj _ _ _ "partials" Hnew eq_refl).
  rewrite get_set_eq, !get_set_ne by done.
  cbn [mbind outcome_bind default from_option id].
  by destruct (truthy (default VUndef (get "templateObj" thps))).
Qed.

Lemma setPartials_then_toVdom_witness :
  ∃ s', setPartials page_store (VRef 2) (VRef 8) = Ok s'
        ∧ toVdom (VRef 3) val handed_view s' (VRef 2) VNull
          = Ok (handed_view ToVdom (heap s') (VRef 0) VNull (VRef 8) VUndef).
Proof.
  destruct (setPartials_then_toVdom (VRef 3) val handed_view page_store 2
              [("templateObj", VRef 0); ("partials", VUndef); ("view", VUndef)]
              (VRef 8) VNull eq_refl) as (s' & H1 & _ & _ & H2).
  by exists s'.
Defined.

Lemma assign_prop_obj s l ps k v :
  heap s !! l = Some (Obj ps) →
  assign_prop s (VRef l) k v
  = Ok (mkStore (<[l := Obj (set ps k v)]> (heap s)) (log s)).
Proof. intros H. unfold assign_prop, store_prop. by rewrite H. Qed.

Lemma prop_app h e v k x : prop h v k = Ok x → prop (h ++ e) v k = Ok x.
Proof.
  destruct v as [| | | | |l]; simpl; try done.
  destruct (h !! l) as [c|] eqn:E; [|done].
  by rewrite (lookup_app_l_Some _ _ _ _ E).
Qed.

Lemma kept_app h e : kept h (h ++ e).
Proof.
  intros l c Hl. exists c. split; [by apply lookup_app_l_Some|].
  apply cell_kept_refl.
Qed.

(** X20.  [attachView] of a wrapped Template, or for a view that has a
    parent view, puts no wrapper element around the graph and flags a copy
    of the graph node as the root, never the node itself: the result is a
    new Template over that copy, bound to the view, with the partials and
    the [wrapped] flag of this Template; every cell there was is kept (an
    array its length, an object every property but [f]). *)
Theorem attachView_flags_a_copy registeredPartials ELEMENT PARTIAL
    getInterpolatorKey fuel s lthis thps lt tps view widgetWrapper pv s' r :
  heap s !! lthis = Some (Obj thps) →
  get "templateObj" thps = Some (VRef lt) →
  heap s !! lt = Some (Obj tps) →
  strict_eq (default VUndef (get "t" tps)) (VNum PARTIAL) = false →
  prop (heap s) view "parentView" = Ok pv →
  truthy pv || truthy (default VUndef (get "wrapped" thps)) = true →
  attachView registeredPartials ELEMENT PARTIAL getInterpolatorKey fuel
    s (VRef lthis) view widgetWrapper = Ok (s', r) →
  let n := length (heap s) in
  kept (heap s) (heap s')
  ∧ prop (heap s') (VRef n) "root" = Ok (VBool true)
  ∧ prop (heap s') (VRef lt) "root" = prop (heap s) (VRef lt) "root"
  ∧ ∃ lnew, r = VRef lnew ∧ n < lnew
      ∧ heap s' !! lnew
        = Some (Obj [("templateObj", VRef n);
                     ("partials", default VUndef (get "partials" thps));
                     ("view", view);
                     ("wrapped", default VUndef (get "wrapped" thps))]).
Proof.
  intros Hthis Hg Hlt Ht Hpv Hcond H n.
  unfold attachView in H.
  rewrite (prop_obj _ _ _ "templateObj" Hthis eq_refl), Hg in H.
  cbn [mbind outcome_bind default from_option id] in H.
  unfold clone in H. rewrite Hlt in H.
  cbn [mbind outcome_bind alloc heap log] in H.
  rewrite (assign_prop_obj (mkStore (heap s ++ [Obj tps]) (log s))
             (length (heap s)) tps) in H by apply lookup_fresh.
  cbn [mbind outcome_bind heap log] in H. rewrite insert_fresh in H.
  set (s2 := mkStore (heap s ++ [Obj (set tps "root" (VBool true))]) (log s))
    in H.
  change (heap s ++ [Obj (set tps "root" (VBool true))]) with (heap s2) in H.
  assert (Hk02 : kept (heap s) (heap s2)) by apply kept_app.
  assert (Hn2 : heap s2 !! n = Some (Obj (set tps "root" (VBool true))))
    by apply lookup_fresh.
  assert (Hpv2 : prop (heap s2) view "parentView" = Ok pv)
    by apply (prop_app _ _ _ _ _ Hpv).
  rewrite Hpv2 in H. cbn [mbind outcome_bind] in H.
  rewrite (prop_kept _ _ _ _ "wrapped" Hk02 Hthis),
    (prop_obj _ _ _ "wrapped" Hthis eq_refl) in H by done.
  cbn [mbind outcome_bind] in H.
  assert (Hskip :
    (if negb (truthy pv)
     then if negb (truthy (default VUndef (get "wrapped" thps)))
          then el ← prop (heap s2) view "el";
               nodeName ← prop (heap s2) el "nodeName";
               Ok (alloc s2 (Obj [("t", VNum ELEMENT); ("e", nodeName);
                                  ("f", VRef (length (heap s)))]))
          else Ok (s2, VRef (length (heap s)))
     else Ok (s2, VRef (length (heap s)))) = Ok (s2, VRef n)).
  { destruct (truthy pv); [done|]. simpl in Hcond. by rewrite Hcond. }
  rewrite Hskip in H. clear Hskip. cbn [mbind outcome_bind] in H.
  rewrite (prop_kept _ _ _ _ "partials" Hk02 Hthis),
    (prop_obj _ _ _ "partials" Hthis eq_refl) in H by done.
  cbn [mbind outcome_bind] in H.
  apply bind_Ok in H as ([s3 g3] & Hav & H).
  assert (Hk23 : kept (heap s2) (heap s3)) by (by eapply attachViews_kept).
  assert (Hk03 : kept (heap s) (heap s3)) by (by eapply kept_trans).
  assert (g3 = VRef n) as ->.
  { destruct fuel as [|fuel]; [simpl in Hav; discriminate Hav|].
    eapply attachViews_not_partial; [exact Hn2| | |exact Hav].
    - by rewrite get_set_ne.
    - apply (attach_widget_root _ _ _ _ _ _ _ Hn2). by rewrite get_set_eq. }
  rewrite (prop_kept _ _ _ _ "partials" Hk03 Hthis),
    (prop_obj _ _ _ "partials" Hthis eq_refl) in H by done.
  cbn [mbind outcome_bind new_Template alloc heap] in H.
  rewrite (prop_kept _ _ _ _ "wrapped" (kept_trans _ _ _ Hk03 (kept_app _ _)) Hthis),
    (prop_obj _ _ _ "wrapped" Hthis eq_refl) in H by done.
  cbn [mbind outcome_bind] in H.
  rewrite (assign_prop_obj _ (length (heap s3))
             [("templateObj", VRef n);
              ("partials", default VUndef (get "partials" thps));
              ("view", view)]) in H by apply lookup_fresh.
  cbn [mbind outcome_bind heap log] in H. rewrite insert_fresh in H.
  injection H as <- <-. cbn [heap].
  assert (Hk : kept (heap s) (heap s3 ++
    [Obj (set [("templateObj", VRef n);
               ("partials", default VUndef (get "partials" thps));
               ("view", view)] "wrapped"
              (default VUndef (get "wrapped" thps)))]))
    by (eapply kept_trans; [exact Hk03|apply kept_app]).
  split; [exact Hk|]. split.
  { rewrite (prop_kept _ _ _ _ "root"
               (kept_trans _ _ _ Hk23 (kept_app _ _)) Hn2) by done.
    by rewrite (prop_obj _ _ _ "root" Hn2 eq_refl), get_set_eq. }
  split; [by apply (prop_kept _ _ _ _ "root" Hk Hlt)|].
  exists (length (heap s3)). split; [done|]. split.
  - destruct (Hk23 n _ Hn2) as (c & Hc & _). apply lookup_lt_Some in Hc. lia.
  - apply lookup_fresh.
Qed.

Lemma attachView_flags_a_copy_witness :
  ∃ s' lnew,
    attachView (VRef 3) 7 8 key_r 6 wrapped_store (VRef 10) (VRef 4) (VRef 8)
    = Ok (s', VRef lnew)
    ∧ prop (heap s') (VRef lnew) "templateObj" = Ok (VRef 11)
    ∧ prop (heap s') (VRef 11) "root" = Ok (VBool true)
    ∧ prop (heap s') (VRef 9) "root" = Ok VUndef.
Proof.
  assert (∃ s' r, attachView (VRef 3) 7 8 key_r 6 wrapped_store (VRef 10)
                    (VRef 4) (VRef 8) = Ok (s', r)) as (s' & r & H)
    by (eexists _, _; vm_compute; reflexivity).
  destruct (attachView_flags_a_copy (VRef 3) 7 8 key_r 6 wrapped_store 10
              [("templateObj", VRef 9); ("partials", VUndef); ("view", VUndef);
               ("wrapped", VBool true)]
              9 [("t", VNum 7); ("e", VStr "div"); ("f", VRef 0)]
              (VRef 4) (VRef 8) VUndef s' r
              eq_refl eq_refl eq_refl eq_refl eq_refl eq_refl H)
    as (_ & Hroot & Hold & lnew & -> & _ & Hnew).
  exists s', lnew. split; [exact H|].
  split; [by rewrite (prop_obj _ _ _ "templateObj" Hnew eq_refl)|].
  split; [exact Hroot|]. rewrite Hold. reflexivity.
Defined.

(** ** Selectors are matched as whole class names *)

Local Abbreviation sp := (Ascii.Ascii false false false false false true false false).

Lemma prefix_token k : ∀ t rest,
  no_space k = true → no_space t = true →
  String.prefix (k +:+ " ") (t +:+ String sp rest) = String.eqb k t.
Proof.
  induction k as [|a k IH]; intros [|c t] rest Hk Ht;
    rewrite ?StackMore.append_cons, ?StackMore.append_empty_l;
    cbn [String.prefix String.eqb no_space] in *.
  - destruct (Ascii.ascii_dec sp sp); [by destruct rest|done].
  - apply andb_true_iff in Ht as [Hc _]. apply negb_true_iff in Hc.
    destruct (Ascii.ascii_dec sp c) as [<-|Hne]; [|done].
    by rewrite Ascii.eqb_refl in Hc.
  - apply andb_true_iff in Hk as [Ha _]. apply negb_true_iff in Ha.
    destruct (Ascii.ascii_dec a sp) as [->|Hne]; [|done].
    by rewrite Ascii.eqb_refl in Ha.
  - apply andb_true_iff in Hk as [_ Hk]. apply andb_true_iff in Ht as [_ Ht].
    destruct (Ascii.ascii_dec a c) as [->|Hne].
    + rewrite Ascii.eqb_refl. by apply IH.
    + apply Ascii.eqb_neq in Hne. by rewrite Hne.
Qed.

Lemma contains_skips_token q t : ∀ r,
  no_space t = true →
  contains (String sp q) (t +:+ r) = contains (String sp q) r.
Proof.
  induction t as [|c t IH]; intros r Ht; [done|].
  cbn [no_space] in Ht.
  apply andb_true_iff in Ht as [Hc Ht]. apply negb_true_iff in Hc.
  rewrite StackMore.append_cons.
  cbn [contains String.prefix].
  destruct (Ascii.ascii_dec sp c) as [<-|Hne].
  - by rewrite Ascii.eqb_refl in Hc.
  - cbn [orb]. by apply IH.
Qed.

Lemma contains_token k t rest :
  no_space k = true → no_space t = true →
  contains (" " +:+ k +:+ " ") (" " +:+ t +:+ String sp rest)
  = String.eqb k t || contains (" " +:+ k +:+ " ") (String sp rest).
Proof.
  intros Hk Ht.
  change (" " +:+ k +:+ " ") with (String sp (k +:+ " ")).
  change (" " +:+ t +:+ String sp rest)
    with (String sp (t +:+ String sp rest)).
  cbn [contains]. rewrite contains_skips_token by done.
  cbn [String.prefix].
  destruct (Ascii.ascii_dec sp sp) as [_|Hne]; [|done].
  by rewrite prefix_token.
Qed.

Lemma contains_tokens k : ∀ ts t,
  no_space k = true → forallb no_space (t :: ts) = true →
  contains (" " +:+ k +:+ " ") (" " +:+ String.concat " " (t :: ts) +:+ " ")
  = existsb (String.eqb k) (t :: ts).
Proof.
  induction ts as [|t' ts IH]; intros t Hk Hts;
    cbn [forallb] in Hts; apply andb_true_iff in Hts as [Ht Hts].
  - cbn [String.concat existsb].
    rewrite (contains_token k t "") by done. f_equal.
    destruct k; reflexivity.
  - change (String.concat " " (t :: t' :: ts))
      with (t +:+ " " +:+ String.concat " " (t' :: ts)).
    replace (" " +:+ (t +:+ " " +:+ String.concat " " (t' :: ts)) +:+ " ")
      with (" " +:+ t +:+ String sp (String.concat " " (t' :: ts) +:+ " ")).
    2:{ f_equal. by rewrite StackMore.append_append. }
    rewrite contains_token by done.
    change (String sp (String.concat " " (t' :: ts) +:+ " "))
      with (" " +:+ String.concat " " (t' :: ts) +:+ " ").
    rewrite IH by done. reflexivity.
Qed.

(** X21.  A selector is matched as a whole class name: when the selector
    and the class names have no space in them, the padded selector occurs
    in the padded class string exactly when the selector is one of the
    class names.  A selector that is a part of a class name ([item] in
    [item-big]) does not match. *)
Theorem selector_matches_whole_class_names k t ts :
  no_space k = true → forallb no_space (t :: ts) = true →
  contains (" " +:+ k +:+ " ") (" " +:+ String.concat " " (t :: ts) +:+ " ")
  = true
  ↔ k ∈ t :: ts.
Proof.
  intros Hk Hts. rewrite contains_tokens by done.
  rewrite existsb_exists. split.
  - intros (x & Hx & Heq). apply String.eqb_eq in Heq as ->.
    by apply list_elem_of_In.
  - intros Hin. exists k. split; [by apply list_elem_of_In|].
    apply String.eqb_refl.
Qed.

Lemma selector_matches_whole_class_names_witness :
  contains " item " " item-big wide " = true ↔ "item" ∈ ["item-big"; "wide"].
Proof.
  exact (selector_matches_whole_class_names "item" "item-big" ["wide"]
           eq_refl eq_refl).
Defined.

(** ** What [attachViews] logs *)

Lemma logged_refl s : logged s s.
Proof. exists []. by rewrite app_nil_r. Qed.

Lemma logged_trans s1 s2 s3 : logged s1 s2 → logged s2 s3 → logged s1 s3.
Proof.
  intros (w1 & H1 & F1) (w2 & H2 & F2). exists (w1 ++ w2).
  rewrite H2, H1, (assoc_L (++)). split; [done|].
  rewrite forallb_app, F1, F2. done.
Qed.

Lemma logged_same s s' : log s' = log s → logged s s'.
Proof. intros H. exists []. by rewrite app_nil_r. Qed.

Lemma logged_store_index s arr i v : logged s (store_index s arr i v).
Proof.
  apply logged_same. unfold store_index.
  by destruct (heap s !! arr) as [[xs|ps]|].
Qed.

Lemma logged_store_prop s o k v : logged s (store_prop s o k v).
Proof.
  apply logged_same. unfold store_prop.
  by destruct (heap s !! o) as [[xs|ps]|].
Qed.

Lemma clone_logged s v s' r : clone s v = Ok (s', r) → logged s s'.
Proof.
  unfold clone. intros H. apply logged_same.
  destruct v; simplify_eq; try done.
  destruct (heap s !! l) eqn:E; by simplify_eq.
Qed.

Lemma prefix_append p : ∀ x, String.prefix p (p +:+ x) = true.
Proof.
  induction p as [|a p IH]; intros x; [by destruct x|]. simpl.
  destruct (Ascii.ascii_dec a a); [apply IH|done].
Qed.

Section logged_by_body.

Variable registeredPartials : val.
Variable PARTIAL : Z.
Variable getInterpolatorKey : list cell → val → string.
Variable view widgetWrapper : val.
Variable rec : store → val → val → option classes → outcome (store * val).
Variable budget : nat.

Hypothesis rec_logged : ∀ s t p cc s' r,
  rec s t p cc = Ok (s', r) → logged s s'.

Lemma attach_members_logged : ∀ n i s template partials cc s',
  attach_members rec n i s template partials cc = Ok s' → logged s s'.
Proof.
  induction n as [|n IH]; intros i s template partials cc s' H; simpl in H;
    destruct (heap s !! template) as [[xs|ps]|]; try discriminate;
    destruct (xs !! i) as [x|]; simplify_eq; try apply logged_refl.
  apply bind_Ok in H as ([s1 r] & Hr & H).
  eapply logged_trans; [by eapply rec_logged|].
  eapply logged_trans; [apply (logged_store_index s1 template i r)|].
  by eapply IH.
Qed.

Lemma attach_children_logged : ∀ n i s template partials cc s',
  attach_children rec n i s template partials cc = Ok s' → logged s s'.
Proof.
  induction n as [|n IH]; intros i s template partials cc s' H; simpl in H;
    apply bind_Ok in H as (f & Hf & H);
    destruct f as [| | | | |lf]; try discriminate;
    destruct (heap s !! lf) as [[xs|ps]|]; try discriminate;
    destruct (xs !! i) as [x|]; simplify_eq; try apply logged_refl.
  apply bind_Ok in H as ([s1 r] & Hr & H).
  eapply logged_trans; [by eapply rec_logged|].
  eapply logged_trans; [apply (logged_store_index s1 lf i r)|].
  by eapply IH.
Qed.

Lemma flatten_children_logged s template s' :
  flatten_children s template = Ok s' → logged s s'.
Proof.
  unfold flatten_children. intros H. apply bind_Ok in H as (f & Hf & H).
  destruct f as [| | | | |lf]; try discriminate.
  destruct template as [| | | | |lt]; try discriminate.
  destruct (heap s !! lf) as [[xs|ps]|]; try discriminate.
  simpl in H. injection H as <-.
  eapply logged_trans; [|apply logged_store_prop]. by apply logged_same.
Qed.

Lemma attach_widget_logged s template partials cc s' template' cc' :
  attach_widget view widgetWrapper s template partials cc
  = Ok (s', template', cc') →
  logged s s'.
Proof.
  unfold attach_widget. intros H.
  apply bind_Ok in H as (root & _ & H).
  destruct (truthy root); [simplify_eq; apply logged_refl|].
  apply bind_Ok in H as (childViews & _ & H).
  destruct (negb (truthy childViews)); [simplify_eq; apply logged_refl|].
  apply bind_Ok in H as (cc0 & _ & H).
  apply bind_Ok in H as (a & _ & H).
  destruct (negb (truthy a)); [simplify_eq; apply logged_refl|].
  apply bind_Ok in H as (cn & _ & H).
  destruct (negb (truthy cn)); [simplify_eq; apply logged_refl|].
  apply bind_Ok in H as (className & _ & H).
  destruct (find_class className (padded cc0) (len cc0));
    [|simplify_eq; apply logged_refl].
  apply bind_Ok in H as (childView & _ & H).
  simpl in H. injection H as <- <- <-. by apply logged_same.
Qed.

Lemma attach_partial_logged s template partials cc s' r :
  attach_partial registeredPartials PARTIAL getInterpolatorKey rec
    s template partials cc = Ok (s', r) →
  logged s s'.
Proof.
  unfold attach_partial. intros H.
  apply bind_Ok in H as (t & _ & H).
  destruct (strict_eq t (VNum PARTIAL)); [|simplify_eq; apply logged_refl].
  apply bind_Ok in H as (found & _ & H).
  destruct (negb (truthy found)).
  { injection H as <- <-. eexists [_]. split; [reflexivity|].
    cbn [forallb]. unfold unregistered_warning.
    by rewrite prefix_append. }
  apply bind_Ok in H as (templateObj & _ & H).
  apply bind_Ok in H as ([s1 copy] & Hc & H).
  apply bind_Ok in H as (own & _ & H).
  eapply logged_trans; [by eapply clone_logged|]. by eapply rec_logged.
Qed.

Lemma attachViews_body_logged s template partials cc s' r :
  attachViews_body registeredPartials PARTIAL getInterpolatorKey
    view widgetWrapper rec budget s template partials cc = Ok (s', r) →
  logged s s'.
Proof.
  unfold attachViews_body. intros H.
  destruct (isArray (heap s) template) eqn:Harr.
  - destruct template as [| | | | |l]; simplify_eq; try apply logged_refl.
    apply bind_Ok in H as (s1 & Hm & H). injection H as <- <-.
    by eapply attach_members_logged.
  - assert (Hbody :
      attach_widget view widgetWrapper s template partials cc
      ≫= (λ '(s0, template0, childClasses),
           prop (heap s0) template0 "f"
           ≫= λ f,
                (if truthy f
                 then attach_children rec budget 0 s0 template0 partials childClasses
                      ≫= λ s1, flatten_children s1 template0
                 else Ok s0)
                ≫= λ s1,
                     attach_partial registeredPartials PARTIAL getInterpolatorKey
                       rec s1 template0 partials childClasses) = Ok (s', r)
      ∨ (s', r) = (s, template)).
    { destruct template; try (by left); right; congruence. }
    clear H. destruct Hbody as [H|H]; [|injection H as -> ->; apply logged_refl].
    apply bind_Ok in H as ([[s0 template0] cc0] & Hw & H).
    apply bind_Ok in H as (f & _ & H).
    apply bind_Ok in H as (s1 & Hf & H).
    eapply logged_trans; [by eapply attach_widget_logged|].
    eapply logged_trans; [|by eapply attach_partial_logged].
    destruct (truthy f); [|simplify_eq; apply logged_refl].
    apply bind_Ok in Hf as (s2 & Hc & Hf).
    eapply logged_trans; [by eapply attach_children_logged|].
    by eapply flatten_children_logged.
Qed.

End logged_by_body.

(** X22.  [attachViews] only ever adds to the log, and what it adds are
    warnings of unregistered partials: a call that returns leaves every
    earlier line of the log in place and logs nothing else. *)
Theorem attachViews_only_warns_of_partials registeredPartials PARTIAL
    getInterpolatorKey view widgetWrapper :
  ∀ fuel s template partials cc s' r,
    attachViews registeredPartials PARTIAL getInterpolatorKey fuel
      s view template widgetWrapper partials cc = Ok (s', r) →
    ∃ ws, log s' = log s ++ ws ∧ forallb unregistered_warning ws = true.
Proof.
  induction fuel as [|fuel IH]; intros s template partials cc s' r H.
  { simpl in H. discriminate H. }
  simpl in H. eapply attachViews_body_logged in H; [exact H|].
  intros s0 t p cc0 s0' r0 Hr. eapply IH. exact Hr.
Qed.

Lemma attachViews_only_warns_of_partials_witness :
  ∃ ws, ["Warning: no partial registered with the name missing"] = [] ++ ws
        ∧ forallb unregistered_warning ws = true.
Proof.
  exact (attachViews_only_warns_of_partials (VRef 2) 8 key_r (VRef 3) VNull
           2 missing_store (VRef 0) (VRef 2) None
           (mkStore [Arr [VNull]; Obj [("t", VNum 8); ("r", VStr "missing")];
                     Obj []; Obj []]
              ["Warning: no partial registered with the name missing"])
           (VRef 0) eq_refl).
Defined.

End TemplateMore.
